(** * QuillForms: block-editor store selectors and rich-text element renderer

    A shallow embedding of

    - [packages/block-editor/src/store/selectors.ts] (module [BlockEditor]),
    - [packages/rich-text/src/components/element/index.tsx] (module [RichText]),

    together with the small part of JavaScript they rely on (module [JS]) and
    the memoisation contract of [createSelector] (module [Memo]).  The
    notions the properties are stated with are in [Notions], concrete
    registries, states and nodes in [Examples]; the properties themselves
    are in [BlockEditorClaims], [MemoClaims] and [RichTextClaims].

    Conventions.
    - A JavaScript exception is a value [Throw e] of the [result] monad; a
      selector that can dereference [undefined] returns a [result].
    - [undefined] is [None].
    - Array indices and the numbers computed from them are integers ([Z]):
      they stay far below 2^53, where the arithmetic of JavaScript numbers
      ([+], [Math.floor (x / 26)], [%]) is exact.
    - The selectors wrapped in [createSelector] are embedded in
      [BlockEditor] by the function they wrap; inside another selector a
      call to one of them denotes there the value that function computes.
      The wrapper itself is modelled in [Memo], and [Exported] gives the
      selectors as the module exports them, their caches threaded through
      the calls: what they return from a cache that holds a result of an
      earlier state, and that they agree with [BlockEditor] when the
      caches answer only what the functions compute on the state. *)

From Stdlib Require Import ZArith Lia Ascii.
From stdpp Require Import base option list strings pretty gmap.
From Equations Require Import Equations.

Local Open Scope Z_scope.

(** ** JavaScript prelude *)

Module JS.

(** The only exception these sources can raise: reading a property of
    [undefined]. *)
Inductive JsError : Type :=
| TypeError.

Inductive result (A : Type) : Type :=
| Ok (a : A)
| Throw (e : JsError).
Arguments Ok {A} a.
Arguments Throw {A} e.

#[global] Instance result_ret : MRet result := @Ok.
#[global] Instance result_bind : MBind result :=
  λ A B f m, match m with Ok a => f a | Throw e => Throw e end.

(** [o.p] where [o] may be [undefined]. *)
Definition get_prop {O P : Type} (p : O → P) (o : option O) : result P :=
  match o with
  | Some x => Ok (p x)
  | None => Throw TypeError
  end.

(** [o?.p]. *)
Definition get_prop_opt {O P : Type} (p : O → P) (o : option O) : option P :=
  p <$> o.

(** Truthiness of a value that is a boolean or [undefined]. *)
Definition truthy (v : option bool) : bool :=
  match v with
  | Some true => true
  | _ => false
  end.

Section arrays.
Context {A : Type}.

(** [Array.prototype.find]. *)
Definition find (P : A → Prop) `{∀ x, Decision (P x)} (l : list A) : option A :=
  snd <$> list_find P l.

(** [Array.prototype.findIndex] and lodash's [findIndex]: [-1] when no
    element satisfies the predicate. *)
Definition findIndex (P : A → Prop) `{∀ x, Decision (P x)} (l : list A) : Z :=
  match list_find P l with
  | Some (i, _) => Z.of_nat i
  | None => -1
  end.

(** [Array.prototype.filter] with a callback that may throw: the callback
    runs on the elements from left to right and the first exception
    aborts the traversal. *)
Fixpoint filter_r (f : A → result bool) (l : list A) : result (list A) :=
  match l with
  | [] => Ok []
  | x :: l' =>
      keep ← f x;
      rest ← filter_r f l';
      mret (if keep : bool then x :: rest else rest)
  end.

(** lodash's [forEach] over an array, with a callback that updates an
    accumulator (here: pushes onto a captured array) and may throw. *)
Fixpoint forEach {Acc : Type} (l : list A) (f : Acc → A → result Acc) (acc : Acc)
    : result Acc :=
  match l with
  | [] => Ok acc
  | x :: l' => acc' ← f acc x; forEach l' f acc'
  end.

(** lodash's [slice (array, start, end)] ([baseSlice]): a negative [start]
    or [end] counts from the end, [end] is clipped to the length. *)
Definition slice (array : list A) (start end_ : Z) : list A :=
  let len := Z.of_nat (length array) in
  let start := if decide (start < 0)
               then (if decide (len < - start) then 0 else len + start)
               else start in
  let end_ := if decide (len < end_) then len else end_ in
  let end_ := if decide (end_ < 0) then end_ + len else end_ in
  if decide (end_ < start) then []
  else take (Z.to_nat (end_ - start)) (drop (Z.to_nat start) array).

End arrays.

(** [String.fromCharCode]: the argument is reduced to a UTF-16 code unit.
    Strings are byte strings here, so the code units below 256 are the
    ones represented exactly; [identName_code_units] below shows that no
    other is produced for an index that [findIndex] can return. *)
Definition fromCharCode (n : Z) : ascii :=
  ascii_of_N (Z.to_N (n mod 65536)).

(** [ 'a'.charCodeAt( 0 ) ]. *)
Definition charCodeAt0_a : Z := 97.

Definition upper_ascii (c : ascii) : ascii :=
  let n := Z.of_N (N_of_ascii c) in
  if decide (97 <= n <= 122) then ascii_of_N (Z.to_N (n - 32)) else c.

(** [String.prototype.toUpperCase], on the Basic Latin block. *)
Fixpoint toUpperCase (s : string) : string :=
  match s with
  | EmptyString => EmptyString
  | String c s' => String (upper_ascii c) (toUpperCase s')
  end.

End JS.

Export JS.

(** ** The block-editor store: data *)

Module BlockEditor.

(** [FormBlock] of [@quillforms/config]: a block has an [id], the [name] of
    its block type and attributes of its own. *)
Record FormBlock : Type := {
  id : string;
  name : string;
  attributes : list (string * string)
}.

#[global] Instance FormBlock_eq_dec : EqDecision FormBlock.
Proof. solve_decision. Defined.

(** An opaque cache token; what matters is its identity. *)
Definition CacheToken : Type := positive.

(** [FormBlocks]: the array object held in [state.blocks].  [array_ref] is
    the identity of the object (what [===] compares), [items] its
    elements. *)
Record FormBlocks : Type := {
  array_ref : positive;
  items : list FormBlock
}.

#[global] Instance FormBlocks_eq_dec : EqDecision FormBlocks.
Proof. solve_decision. Defined.

(** [BlockEditorState]; [cache] may be absent (the source reads it with
    [state?.cache?.[ id ]]). *)
Record BlockEditorState : Type := {
  blocks : FormBlocks;
  cache : option (gmap string CacheToken);
  currentBlockId : option string
}.

(** [state?.cache?.[ blockId ]]. *)
Definition cache_token (state : BlockEditorState) (blockId : string)
    : option CacheToken :=
  c ← cache state; c !! blockId.

(** [BlockOrder = string | number | undefined]. *)
Inductive OrderLabel : Type :=
| OrderNumber (n : Z)
| OrderString (s : string).

Definition BlockOrder : Type := option OrderLabel.

(** [FormBlockWithOrder]: the object [{ ...block, order }]. *)
Record FormBlockWithOrder : Type := {
  block : FormBlock;
  order : BlockOrder
}.

(** Modelled from the spec: the block type, declared in the package
    [@quillforms/blocks], "has a [supports] record of boolean capability
    flags, notably [editable]". *)
Record BlockSupports : Type := {
  editable : bool;
  logic : bool;
  required : bool;
  attachment : bool;
  description : bool
}.

Record BlockType : Type := {
  supports : BlockSupports
}.

(** The data registry that [select] reads: the state of the
    ['quillForms/blocks'] store, a mapping from block name to block type,
    and the current state of the ['quillForms/block-editor'] store. *)
Record Registry : Type := {
  blockTypes : gmap string BlockType;
  blockEditorState : BlockEditorState
}.

(** [select( 'quillForms/blocks' ).getBlockTypes()]. *)
Definition getBlockTypes (reg : Registry) : gmap string BlockType :=
  blockTypes reg.

(** Modelled from the spec: [getBlockType (name)] of [@quillforms/blocks],
    the registry client's "[getBlockType(name) → BlockType | undefined]",
    a lookup in the same mapping. *)
Definition getBlockType (reg : Registry) (blockName : string) : option BlockType :=
  blockTypes reg !! blockName.

(** ** The block-editor store: selectors *)

(** [getBlocks]: the function given to [createSelector] (lines 34-36) and
    the dependants it is keyed on (lines 37-38). *)
Definition getBlocks (state : BlockEditorState) : FormBlocks :=
  blocks state.

Definition getBlocks_dependants (state : BlockEditorState) : list (option CacheToken) :=
  map (λ block, cache_token state (id block)) (items (blocks state)).

(** [getWelcomeScreensLength] *)
Definition getWelcomeScreensLength (state : BlockEditorState) : Z :=
  Z.of_nat (length (filter (λ block, name block = "welcome-screen") (items (blocks state)))).

(** [getBlockById] (lines 62-66) and its dependants (lines 67-74). *)
Definition getBlockById (state : BlockEditorState) (blockId : string)
    : option FormBlock :=
  let block := find (λ block', id block' = blockId) (items (blocks state)) in
  match block with
  | None => None
  | Some b => Some b
  end.

Definition getBlockById_dependants (state : BlockEditorState) (blockId : string)
    : list (option CacheToken) :=
  [cache_token state blockId].

(** [getEditableFields] (lines 144-152): the callback reads
    [blockType.supports] without a guard. *)
Definition getEditableFields (reg : Registry) (state : BlockEditorState)
    : result (list FormBlock) :=
  let blocks := getBlocks state in
  filter_r
    (λ block,
       let blockType := getBlockTypes reg !! name block in
       s ← get_prop supports blockType;
       mret (bool_decide (editable s = true)))
    (items blocks).

(** [identName] (lines 100-120), first its loop (lines 104-112) on the
    array [b] and the index [sp].

    [b[ i ] = v] for [i <= b.length], the only case the loop has: its one
    write past [sp] is [b[ sp + 1 ]] under the guard [sp < b.length], and
    it overwrites an element or appends one. *)
Definition array_set_next (i : nat) (v : Z) (b : list Z) : list Z :=
  if decide (i < length b)%nat then <[i:=v]> b else b ++ [v].

(** A value together with the equation that it is the value. *)
Definition inspect {A : Type} (a : A) : {b : A | a = b} := exist _ a eq_refl.

(** What decreases along the loop: the elements from [sp] on, each counted
    with its size. *)
Definition loop_measure (b : list Z) (sp : nat) : nat :=
  sum_list_with (λ x, S (Z.to_nat x)) (drop sp b).

(** [while ( sp < b.length ) { if ( b[ sp ] > 25 ) { div = Math.floor( b[ sp ] / 26 );
    b[ sp + 1 ] = div - 1; b[ sp ] %= 26; } sp += 1; }] *)
Equations? identName_loop (b : list Z) (sp : nat) : list Z
  by wf (loop_measure b sp) lt :=
  identName_loop b sp with inspect (b !! sp) := {
    | exist _ None _ => b
    | exist _ (Some x) Hx with decide (25 < x) := {
        | left Hgt =>
            identName_loop
              (<[sp := Z.rem x 26]> (array_set_next (sp + 1) (x / 26 - 1) b))
              (sp + 1)
        | right _ => identName_loop b (sp + 1) } }.
Proof.
  - (* the carry branch: the digit written at [sp + 1] is smaller than [x] *)
    unfold loop_measure.
    assert (Hlt : (sp < length b)%nat) by (eapply lookup_lt_Some; eauto).
    rewrite drop_insert_lt by lia.
    rewrite (drop_S b x sp) by done.
    assert (Hv : (Z.to_nat (x / 26 - 1) < Z.to_nat x)%nat).
    { assert (1 <= x / 26) by (apply Z.div_le_lower_bound; lia).
      assert (x / 26 <= x) by (apply Z.div_le_upper_bound; lia). lia. }
    replace (sp + 1)%nat with (S sp) by lia.
    unfold array_set_next. destruct (decide _) as [Hin|Hout].
    + destruct (lookup_lt_is_Some_2 b (S sp) Hin) as [y Hy].
      rewrite (drop_S _ (x / 26 - 1) (S sp)) by (rewrite list_lookup_insert_eq; auto).
      rewrite drop_insert_lt by lia.
      rewrite (drop_S b y (S sp) Hy). simpl. lia.
    + rewrite drop_app_length' by lia.
      replace (S sp) with (length b) by lia. rewrite drop_all. simpl. lia.
  - (* no carry: one element fewer remains *)
    unfold loop_measure.
    rewrite (drop_S b x sp) by done. replace (sp + 1)%nat with (S sp) by lia.
    simpl. lia.
Qed.

(** [for ( i = 0; i < b.length; i += 1 ) out = String.fromCharCode( charCode + b[ i ] ) + out;] *)
Definition identName_out (b : list Z) : string :=
  fold_left (λ out bi, String (fromCharCode (charCodeAt0_a + bi)) out) b EmptyString.

(** [const identName = ( a: number ): string => { const b = [ a ]; ... }] *)
Definition identName (a : Z) : string :=
  let b := identName_loop [a] 0 in
  toUpperCase (identName_out b).

(** [getBlockOrderById] (lines 85-135).  The block type and the editable
    fields are read through [select], that is from the registry; the
    editable fields are computed before the branch on
    [blockType.supports.editable]. *)
Definition getBlockOrderById (reg : Registry) (state : BlockEditorState)
    (blockId : string) : result BlockOrder :=
  let formBlock := getBlockById state blockId in
  match formBlock with
  | None => Ok None
  | Some formBlock =>
      let blockType := getBlockTypes reg !! name formBlock in
      editableFields ← getEditableFields reg (blockEditorState reg);
      s ← get_prop supports blockType;
      if bool_decide (editable s = true) then
        let fieldIndex := findIndex (λ field, id field = blockId) editableFields in
        Ok (Some (OrderNumber (fieldIndex + 1)))
      else
        let fieldIndex :=
          findIndex (λ block, id block = blockId)
            (filter (λ block, name block = name formBlock) (items (blocks state))) in
        Ok (Some (OrderString (identName fieldIndex)))
  end.

(** [getPreviousEditableFieldsWithOrder] (lines 201-220) and its
    dependants (lines 221-222). *)
Definition getPreviousEditableFieldsWithOrder (reg : Registry)
    (state : BlockEditorState) (blockId : string)
    : result (list FormBlockWithOrder) :=
  let prevEditableFields : list FormBlockWithOrder := [] in
  let blocks := getBlocks state in
  let blockIndex := findIndex (λ block, id block = blockId) (items blocks) in
  if decide (blockIndex > 0) then
    let prevFormBlocks := slice (items blocks) 0 blockIndex in
    forEach prevFormBlocks
      (λ prevEditableFields block,
         let blockType := getBlockType reg (name block) in
         if truthy (get_prop_opt editable (get_prop_opt supports blockType)) then
           order ← getBlockOrderById reg state (id block);
           Ok (prevEditableFields ++ [{| block := block; order := order |}])
         else Ok prevEditableFields)
      prevEditableFields
  else Ok prevEditableFields.

Definition getPreviousEditableFieldsWithOrder_dependants
    (state : BlockEditorState) (blockId : string) : list (option CacheToken) :=
  map (λ block, cache_token state (id block)) (items (blocks state)).

(** [getEditableFieldsLength], [getCurrentBlockId], [getCurrentBlockIndex],
    [getCurrentBlock]. *)
Definition getEditableFieldsLength (reg : Registry) (state : BlockEditorState)
    : result Z :=
  fields ← getEditableFields reg state; mret (Z.of_nat (length fields)).

Definition getCurrentBlockId (state : BlockEditorState) : option string :=
  currentBlockId state.

Definition getCurrentBlockIndex (state : BlockEditorState) : Z :=
  findIndex (λ item, Some (id item) = currentBlockId state) (items (blocks state)).

Definition getCurrentBlock (state : BlockEditorState) : option FormBlock :=
  let currentBlockIndex :=
    findIndex (λ item, Some (id item) = currentBlockId state) (items (blocks state)) in
  if decide (currentBlockIndex ≠ -1)
  then items (blocks state) !! Z.to_nat currentBlockIndex
  else None.

End BlockEditor.

(** ** The memoised derivation cache *)

Module Memo.

Section createSelector.
Context {S A V D : Type} `{EqDecision A, EqDecision D}.

(** Modelled from the spec: the cache of a selector made by
    [createSelector] (of the external package [rememo]): the dependants of
    the last call and one node, arguments and value, per argument list
    seen since the dependants last changed. *)
Record Cache : Type := {
  lastDependants : option (list D);
  nodes : list (A * V)
}.

Definition empty_cache : Cache :=
  {| lastDependants := None; nodes := [] |}.

(** Modelled from the spec: [createSelector (selector, getDependants)] of
    [rememo], "a generic memoization utility that recomputes a derived
    value only when a declared set of dependency values changes".  A call
    whose dependants differ from those of the last call (compared element
    by element with [===]) clears the nodes; a call whose arguments (those
    after the state) match a node returns the node's value; any other
    call runs [selector] and stores its result in a new node. *)
Definition createSelector (selector : S → A → V) (getDependants : S → A → list D)
    (c : Cache) (source : S) (args : A) : V * Cache :=
  let dependants := getDependants source args in
  let kept := if decide (lastDependants c = Some dependants) then nodes c else [] in
  match list_find (λ node, node.1 = args) kept with
  | Some (_, node) =>
      (node.2, {| lastDependants := Some dependants; nodes := kept |})
  | None =>
      let val := selector source args in
      (val, {| lastDependants := Some dependants; nodes := (args, val) :: kept |})
  end.

End createSelector.

(** [export const getBlocks = createSelector( ... )] (lines 33-39); the
    selector takes no argument besides the state. *)
Definition getBlocks_cache : Type :=
  @Cache unit BlockEditor.FormBlocks (option BlockEditor.CacheToken).

Definition getBlocks (c : getBlocks_cache) (state : BlockEditor.BlockEditorState)
    : BlockEditor.FormBlocks * getBlocks_cache :=
  createSelector
    (λ state (_ : unit), BlockEditor.getBlocks state)
    (λ state (_ : unit), BlockEditor.getBlocks_dependants state)
    c state ().

(** [export const getBlockById = createSelector( ... )] (lines 61-75). *)
Definition getBlockById_cache : Type :=
  @Cache string (option BlockEditor.FormBlock) (option BlockEditor.CacheToken).

Definition getBlockById (c : getBlockById_cache)
    (state : BlockEditor.BlockEditorState) (blockId : string)
    : option BlockEditor.FormBlock * getBlockById_cache :=
  createSelector BlockEditor.getBlockById BlockEditor.getBlockById_dependants
    c state blockId.

End Memo.

(** ** The exported selectors, with their caches *)

Module Exported.
Import BlockEditor.

(** The cache of [getPreviousEditableFieldsWithOrder]: its argument after
    the state is the block id. *)
Definition getPrevious_cache : Type :=
  @Memo.Cache string (list FormBlockWithOrder) (option CacheToken).

(** The caches of the three selectors that the module makes with
    [createSelector]. *)
Record Caches : Type := {
  getBlocks_c : Memo.getBlocks_cache;
  getBlockById_c : Memo.getBlockById_cache;
  getPrevious_c : getPrevious_cache
}.

(** The caches before any call. *)
Definition cold_caches : Caches :=
  {| getBlocks_c := Memo.empty_cache;
     getBlockById_c := Memo.empty_cache;
     getPrevious_c := Memo.empty_cache |}.

(** A call of an exported selector: it reads and updates the caches and
    returns or throws; the updates made before a throw stay. *)
Definition call (X : Type) : Type := Caches → result X * Caches.

Definition call_ret {X : Type} (x : X) : call X := λ cs, (Ok x, cs).

Definition call_lift {X : Type} (r : result X) : call X := λ cs, (r, cs).

Definition call_bind {X Y : Type} (m : call X) (k : X → call Y) : call Y :=
  λ cs, match m cs with
        | (Ok x, cs') => k x cs'
        | (Throw e, cs') => (Throw e, cs')
        end.

(** [export const getBlocks = createSelector( ... )] (lines 33-39). *)
Definition getBlocks (state : BlockEditorState) : call FormBlocks :=
  λ cs, let r := Memo.getBlocks (getBlocks_c cs) state in
        (Ok r.1, {| getBlocks_c := r.2;
                    getBlockById_c := getBlockById_c cs;
                    getPrevious_c := getPrevious_c cs |}).

(** [export const getBlockById = createSelector( ... )] (lines 61-75). *)
Definition getBlockById (state : BlockEditorState) (blockId : string)
    : call (option FormBlock) :=
  λ cs, let r := Memo.getBlockById (getBlockById_c cs) state blockId in
        (Ok r.1, {| getBlocks_c := getBlocks_c cs;
                    getBlockById_c := r.2;
                    getPrevious_c := getPrevious_c cs |}).

(** [getEditableFields] (lines 144-152), with its call of the memoised
    [getBlocks]. *)
Definition getEditableFields (reg : Registry) (state : BlockEditorState)
    : call (list FormBlock) :=
  call_bind (getBlocks state) (λ blocks,
    call_lift
      (filter_r
         (λ block,
            let blockType := getBlockTypes reg !! name block in
            s ← get_prop supports blockType;
            mret (bool_decide (editable s = true)))
         (items blocks))).

(** [getEditableFieldsLength] (lines 232-234). *)
Definition getEditableFieldsLength (reg : Registry) (state : BlockEditorState)
    : call Z :=
  call_bind (getEditableFields reg state) (λ fields,
    call_ret (Z.of_nat (length fields))).

(** [getBlockOrderById] (lines 85-135), with its call of the memoised
    [getBlockById] at line 89 and, through [select], of
    [getEditableFields] on the store's state. *)
Definition getBlockOrderById (reg : Registry) (state : BlockEditorState)
    (blockId : string) : call BlockOrder :=
  call_bind (getBlockById state blockId) (λ formBlock,
    match formBlock with
    | None => call_ret None
    | Some formBlock =>
        let blockType := getBlockTypes reg !! name formBlock in
        call_bind (getEditableFields reg (blockEditorState reg)) (λ editableFields,
        call_bind (call_lift (get_prop supports blockType)) (λ s,
          if bool_decide (editable s = true) then
            let fieldIndex := findIndex (λ field, id field = blockId) editableFields in
            call_ret (Some (OrderNumber (fieldIndex + 1)))
          else
            let fieldIndex :=
              findIndex (λ block, id block = blockId)
                (filter (λ block, name block = name formBlock) (items (blocks state))) in
            call_ret (Some (OrderString (identName fieldIndex)))))
    end).

(** lodash's [forEach] with a callback that calls selectors. *)
Fixpoint forEach_call {A Acc : Type} (l : list A) (f : Acc → A → call Acc)
    (acc : Acc) : call Acc :=
  match l with
  | [] => call_ret acc
  | x :: l' => call_bind (f acc x) (λ acc', forEach_call l' f acc')
  end.

(** The function given to [createSelector] at lines 201-220. *)
Definition getPrevious_selector (reg : Registry) (state : BlockEditorState)
    (blockId : string) : call (list FormBlockWithOrder) :=
  let prevEditableFields : list FormBlockWithOrder := [] in
  call_bind (getBlocks state) (λ blocks,
    let blockIndex := findIndex (λ block, id block = blockId) (items blocks) in
    if decide (blockIndex > 0) then
      let prevFormBlocks := slice (items blocks) 0 blockIndex in
      forEach_call prevFormBlocks
        (λ prevEditableFields block,
           let blockType := getBlockType reg (name block) in
           if truthy (get_prop_opt editable (get_prop_opt supports blockType)) then
             call_bind (getBlockOrderById reg state (id block)) (λ order,
               call_ret (prevEditableFields ++ [{| block := block; order := order |}]))
           else call_ret prevEditableFields)
        prevEditableFields
    else call_ret prevEditableFields).

(** Modelled from the spec: [createSelector] around a selector that
    itself calls selectors and may throw, as [Memo.createSelector] is
    around one that does neither: the dependants are compared with those
    of the last call, a node for the arguments is returned if there is
    one, and otherwise the selector runs; when it returns, its value is
    kept in a new node, and when it throws, nothing is kept. *)
Definition getPreviousEditableFieldsWithOrder (reg : Registry)
    (state : BlockEditorState) (blockId : string)
    : call (list FormBlockWithOrder) :=
  λ cs,
    let dependants := getPreviousEditableFieldsWithOrder_dependants state blockId in
    let c := getPrevious_c cs in
    let kept := if decide (Memo.lastDependants c = Some dependants)
                then Memo.nodes c else [] in
    let with_cache (cs : Caches) (c : getPrevious_cache) : Caches :=
      {| getBlocks_c := getBlocks_c cs;
         getBlockById_c := getBlockById_c cs;
         getPrevious_c := c |} in
    match list_find (λ node, node.1 = blockId) kept with
    | Some (_, node) =>
        (Ok node.2,
         with_cache cs {| Memo.lastDependants := Some dependants; Memo.nodes := kept |})
    | None =>
        match getPrevious_selector reg state blockId
                (with_cache cs {| Memo.lastDependants := Some dependants;
                                  Memo.nodes := kept |}) with
        | (Ok val, cs') =>
            (Ok val,
             with_cache cs'
               {| Memo.lastDependants := Some dependants;
                  Memo.nodes := (blockId, val) :: kept |})
        | (Throw e, cs') => (Throw e, cs')
        end
    end.

End Exported.

Module ExportedNotions.
Import BlockEditor.

(** What a cache returns for given dependants and arguments, if it has a
    node for them. *)
Definition cache_answers {A V D : Type} `{EqDecision A, EqDecision D}
    (c : @Memo.Cache A V D) (dependants : list D) (args : A) : option V :=
  if decide (Memo.lastDependants c = Some dependants)
  then (λ found : nat * (A * V), found.2.2)
         <$> list_find (λ node : A * V, node.1 = args) (Memo.nodes c)
  else None.

(** The caches answer for this state and this id only what the selectors
    compute on the state: whatever [getBlocks], [getBlockById] and
    [getPreviousEditableFieldsWithOrder] would return from their caches
    is the value of their function on [state].  It is so of cold caches,
    of caches filled by calls on [state] itself, and of caches whose
    dependants (the cache tokens) differ from those of [state]. *)
Definition CoherentAt (reg : Registry) (state : BlockEditorState)
    (blockId : string) (cs : Exported.Caches) : Prop :=
  (∀ v, cache_answers (Exported.getBlocks_c cs) (getBlocks_dependants state) ()
          = Some v → v = blocks state)
  ∧ (∀ v, cache_answers (Exported.getBlockById_c cs)
            (getBlockById_dependants state blockId) blockId = Some v →
          v = getBlockById state blockId)
  ∧ (∀ v, cache_answers (Exported.getPrevious_c cs)
            (getPreviousEditableFieldsWithOrder_dependants state blockId) blockId
          = Some v →
          getPreviousEditableFieldsWithOrder reg state blockId = Ok v).

(** The cache of [getBlockById] answers, for every id, only what the
    function computes on the state. *)
Definition ByIdCoherent (state : BlockEditorState) (cs : Exported.Caches) : Prop :=
  ∀ blockId v,
    cache_answers (Exported.getBlockById_c cs)
      (getBlockById_dependants state blockId) blockId = Some v →
    v = getBlockById state blockId.

End ExportedNotions.

(** ** The rich-text element renderer *)

Module RichText.

Section Element.
Context {Editor Attributes Children MergeTags Path : Type}.

(** A Slate element node: its [type] tag and, on a [Link], its [url]. *)
Record SlateElement : Type := {
  type : string;
  url : option string;
  data : list (string * string)
}.

(** [Props]: [RenderElementProps] extended with [editor] and [mergeTags]. *)
Record Props : Type := {
  attributes : Attributes;
  children : Children;
  element : SlateElement;
  editor : Editor;
  mergeTags : MergeTags
}.

(** What the component returns: one of its three JSX expressions.
    [children] of the merge-tag component is [null] or a node. *)
Inductive Rendered : Type :=
| jsx_MergeTagComponent (element : SlateElement) (mergeTags : MergeTags)
    (editor : Editor) (path : Path) (attributes : Attributes)
    (children : option Children)
| jsx_a (attributes : Attributes) (href : option string) (children : Children)
| jsx_p (attributes : Attributes) (children : Children).

(** The calls made to the editor position resolver, in order. *)
Inductive Call : Type :=
| FindPath (editor : Editor) (node : SlateElement).

Definition traced (X : Type) : Type := (list Call * X)%type.

Definition traced_ret {X : Type} (x : X) : traced X := ([], x).

Definition traced_bind {X Y : Type} (m : traced X) (k : X → traced Y) : traced Y :=
  let '(calls1, x) := m in
  let '(calls2, y) := k x in
  (calls1 ++ calls2, y).

(** [ReactEditor.findPath] of [slate-react], the editor position resolver
    "[findPath(editor, node) → structural path]". *)
Variable findPath : Editor → SlateElement → Path.

Definition ReactEditor_findPath (e : Editor) (node : SlateElement) : traced Path :=
  ([FindPath e node], findPath e node).

(** [Element] (lines 16-44). *)
Definition Element (props : Props) : traced Rendered :=
  traced_bind (ReactEditor_findPath (editor props) (element props)) (λ path,
    if decide (type (element props) = "mergeTag") then
      traced_ret
        (jsx_MergeTagComponent (element props) (mergeTags props) (editor props)
           path (attributes props) None)
    else if decide (type (element props) = "link") then
      traced_ret (jsx_a (attributes props) (url (element props)) (children props))
    else
      traced_ret (jsx_p (attributes props) (children props))).

End Element.

End RichText.

(** ** Notions the properties are stated with *)

Module Notions.
Import BlockEditor.

(** The block's name has an entry in the block-type registry. *)
Definition Registered (reg : Registry) (b : FormBlock) : Prop :=
  is_Some (getBlockTypes reg !! name b).

(** Every block of the state has a registered name. *)
Definition AllRegistered (reg : Registry) (state : BlockEditorState) : Prop :=
  Forall (Registered reg) (items (blocks state)).

(** Following the spec's words (data model): an editable field is a block
    "whose BlockType has [supports.editable === true]". *)
Definition EditableField (reg : Registry) (b : FormBlock) : Prop :=
  (λ bt, editable (supports bt)) <$> (getBlockTypes reg !! name b) = Some true.

#[global] Instance EditableField_dec reg b : Decision (EditableField reg b).
Proof. unfold EditableField. apply _. Defined.

(** The block ids of a state are pairwise distinct (data model: "[id],
    unique string"). *)
Definition UniqueIds (state : BlockEditorState) : Prop :=
  NoDup (id <$> items (blocks state)).

(** Following the spec's words: "the classic bijective numeration: letter
    digits are 1-indexed (no digit represents zero)".  The letter [A] is
    the digit 1, ..., [Z] the digit 26, and a string of letters denotes
    the sum of its digits weighted by the powers of 26, most significant
    letter first. *)
Definition letter_digit (c : ascii) : Z :=
  Z.of_N (N_of_ascii c) - 64.

Definition is_letter (c : ascii) : Prop :=
  1 <= letter_digit c <= 26.

Fixpoint letters (s : string) : Prop :=
  match s with
  | EmptyString => True
  | String c s' => is_letter c ∧ letters s'
  end.

Fixpoint bijective26_acc (acc : Z) (s : string) : Z :=
  match s with
  | EmptyString => acc
  | String c s' => bijective26_acc (26 * acc + letter_digit c) s'
  end.

Definition bijective26_value (s : string) : Z :=
  bijective26_acc 0 s.

(** [s] is the bijective base-26 letter string of [n]. *)
Definition bijective26 (n : Z) (s : string) : Prop :=
  letters s ∧ bijective26_value s = n.

(** The value of the array [b] that the loop of [identName] leaves: the
    element [b[ i ]] stands for the digit [b[ i ] + 1] of weight [26^i]. *)
Fixpoint digits_value (ds : list Z) : Z :=
  match ds with
  | [] => 0
  | d :: ds' => (d + 1) + 26 * digits_value ds'
  end.

(** The upper-case letters of the array [b], last element first. *)
Fixpoint upper_digits (ds : list Z) : string :=
  match ds with
  | [] => EmptyString
  | d :: ds' => upper_digits ds' +:+ String (ascii_of_N (Z.to_N (65 + d))) EmptyString
  end.

(** The value of a list of letters, most significant first. *)
Definition chars_value (l : list ascii) : Z :=
  fold_left (λ acc c, 26 * acc + letter_digit c) l 0.

(** The number of blocks named like [b] among the first [i] blocks. *)
Definition same_named_before (state : BlockEditorState) (b : FormBlock) (i : nat) : nat :=
  length (filter (λ x, name x = name b) (take i (items (blocks state)))).


End Notions.

(** ** Concrete registries, states and nodes *)

Module Examples.
Import BlockEditor Notions.

Definition mkBlock (blockId blockName : string) : FormBlock :=
  {| id := blockId; name := blockName; attributes := [] |}.

Definition mkType (isEditable : bool) : BlockType :=
  {| supports := {| editable := isEditable; logic := isEditable;
                    required := isEditable; attachment := true;
                    description := true |} |}.

(** A registry of two block types: an editable one and a layout one. *)
Definition types : gmap string BlockType :=
  {[ "short-text" := mkType true; "group" := mkType false ]}.

Definition mkState (l : list FormBlock) : BlockEditorState :=
  {| blocks := {| array_ref := 1; items := l |};
     cache := None;
     currentBlockId := None |}.

(** The registry whose block-editor store is in the state [mkState l]. *)
Definition mkRegistry (l : list FormBlock) : Registry :=
  {| blockTypes := types; blockEditorState := mkState l |}.

(** [A(editable), B(non-editable), C(editable), D(target, editable)]. *)
Definition abcd : list FormBlock :=
  [mkBlock "A" "short-text"; mkBlock "B" "group";
   mkBlock "C" "short-text"; mkBlock "D" "short-text"].

(** Twenty-eight blocks of type ["group"], with ids ["0"] to ["27"]. *)
Definition groups : list FormBlock :=
  (λ k : nat, mkBlock (pretty k) "group") <$> seq 0 28.

(** A layout block followed by a block whose name is not registered. *)
Definition group_ghost : list FormBlock :=
  [mkBlock "G" "group"; mkBlock "U" "ghost"].


(** An editable field and a block whose name is not registered, both
    before the target. *)
Definition field_ghost_target : list FormBlock :=
  [mkBlock "A" "short-text"; mkBlock "U" "ghost"; mkBlock "D" "short-text"].

(** A block whose name is not registered, then the target. *)
Definition ghost_target : list FormBlock :=
  [mkBlock "U" "ghost"; mkBlock "D" "short-text"].

(** Two states with the same cache tokens whose [blocks] are different
    array objects with different contents. *)
Definition tokens : gmap string CacheToken :=
  {[ "A" := 11%positive; "B" := 12%positive ]}.

Definition first_state : BlockEditorState :=
  {| blocks := {| array_ref := 1;
                  items := [mkBlock "A" "short-text"; mkBlock "B" "group"] |};
     cache := Some tokens;
     currentBlockId := None |}.

Definition second_state : BlockEditorState :=
  {| blocks := {| array_ref := 2;
                  items := [mkBlock "A" "long-text"; mkBlock "B" "statement"] |};
     cache := Some tokens;
     currentBlockId := Some "A" |}.

(** Rendering contexts for the element renderer: the editor is a name,
    attributes and children are strings, a path is a list of indices. *)
Definition link_node : RichText.SlateElement :=
  {| RichText.type := "link"; RichText.url := Some "https://x"; RichText.data := [] |}.

Definition mergeTag_node : RichText.SlateElement :=
  {| RichText.type := "mergeTag"; RichText.url := None;
     RichText.data := [("type", "field"); ("modifier", "A")] |}.

Definition paragraph_node : RichText.SlateElement :=
  {| RichText.type := "paragraph"; RichText.url := None; RichText.data := [] |}.

Definition props_of (node : RichText.SlateElement)
    : @RichText.Props string string string (list string) :=
  {| RichText.attributes := "data-slate-node";
     RichText.children := "text";
     RichText.element := node;
     RichText.editor := "editor";
     RichText.mergeTags := ["field"] |}.

Definition path_of (e : string) (node : RichText.SlateElement) : list nat :=
  [0%nat; length (RichText.data node)].
End Examples.

(** ** Further notions and examples *)

Module CoverageNotions.
Import BlockEditor Notions Examples.

(** The state [mkState l] with a current block id. *)
Definition mkStateAt (current : option string) (l : list FormBlock) : BlockEditorState :=
  {| blocks := {| array_ref := 1; items := l |};
     cache := None;
     currentBlockId := current |}.

(** A welcome screen, two fields and a layout block. *)
Definition welcome_form : list FormBlock :=
  [mkBlock "W" "welcome-screen"; mkBlock "A" "short-text";
   mkBlock "B" "group"; mkBlock "C" "short-text"].

Section rendered.
Context {Editor Attributes Children MergeTags Path : Type}.

(** The JSX tag of a render. *)
Inductive Tag : Type :=
| TagMergeTagComponent
| TagA
| TagP.

Definition rendered_tag
    (r : @RichText.Rendered Editor Attributes Children MergeTags Path) : Tag :=
  match r with
  | RichText.jsx_MergeTagComponent _ _ _ _ _ _ => TagMergeTagComponent
  | RichText.jsx_a _ _ _ => TagA
  | RichText.jsx_p _ _ => TagP
  end.

(** The [attributes] a render carries. *)
Definition rendered_attributes
    (r : @RichText.Rendered Editor Attributes Children MergeTags Path) : Attributes :=
  match r with
  | RichText.jsx_MergeTagComponent _ _ _ _ attributes _ => attributes
  | RichText.jsx_a attributes _ _ => attributes
  | RichText.jsx_p attributes _ => attributes
  end.

(** The children a render wraps, [None] for [null]. *)
Definition rendered_children
    (r : @RichText.Rendered Editor Attributes Children MergeTags Path)
    : option Children :=
  match r with
  | RichText.jsx_MergeTagComponent _ _ _ _ _ children => children
  | RichText.jsx_a _ _ children => Some children
  | RichText.jsx_p _ children => Some children
  end.

End rendered.

End CoverageNotions.

Module MoreExamples.
Import BlockEditor Notions Examples.

(** An editable field followed by a block whose name is not registered. *)
Definition field_ghost : list FormBlock :=
  [mkBlock "A" "short-text"; mkBlock "U" "ghost"].

(** A state with one layout block, and the states left when the block is
    removed: in [pruned_state] the block's cache token is still there, in
    [retokened_state] it has been replaced. *)
Definition earlier_state : BlockEditorState :=
  {| blocks := {| array_ref := 1; items := [mkBlock "G" "group"] |};
     cache := Some {[ "G" := 7%positive ]};
     currentBlockId := Some "G" |}.

Definition pruned_state : BlockEditorState :=
  {| blocks := {| array_ref := 2; items := [] |};
     cache := Some {[ "G" := 7%positive ]};
     currentBlockId := Some "G" |}.

Definition retokened_state : BlockEditorState :=
  {| blocks := {| array_ref := 3; items := [] |};
     cache := Some {[ "G" := 8%positive ]};
     currentBlockId := None |}.

(** The registry of [Examples.types] whose store is in a given state. *)
Definition registry_at (state : BlockEditorState) : Registry :=
  {| blockTypes := types; blockEditorState := state |}.

(** The caches after a first call [getBlockById (earlier_state, "G")]. *)
Definition caches_after_earlier : Exported.Caches :=
  (Exported.getBlockById earlier_state "G" Exported.cold_caches).2.

End MoreExamples.

(** ** Facts about the JavaScript prelude *)

Module JSFacts.

Section arrays.
Context {A : Type}.
Implicit Types (l : list A) (f : A → result bool).

Lemma filter_r_Ok f (g : A → bool) l :
  Forall (λ x, f x = Ok (g x)) l →
  filter_r f l = Ok (filter (λ x, g x = true) l).
Proof.
  induction 1 as [|x l Hx _ IH]; [reflexivity|].
  rewrite filter_cons. cbn [filter_r]. rewrite Hx, IH.
  destruct (g x).
  - rewrite decide_True by done. reflexivity.
  - rewrite decide_False by done. reflexivity.
Qed.

Lemma filter_r_Throw f l x :
  x ∈ l → f x = Throw TypeError → filter_r f l = Throw TypeError.
Proof.
  intros Hin Hx. induction Hin as [x l|x y l _ IH]; cbn [filter_r].
  - rewrite Hx. reflexivity.
  - destruct (f y) as [k|[]]; [|reflexivity]. cbn. rewrite IH by done. reflexivity.
Qed.

Lemma filter_r_inv f l l' :
  filter_r f l = Ok l' → Forall (λ x, ∃ k, f x = Ok k) l.
Proof.
  revert l'. induction l as [|x l IH]; intros l' H; [constructor|].
  cbn [filter_r] in H. destruct (f x) as [k|e] eqn:Hx; [|discriminate].
  cbn in H. destruct (filter_r f l) as [r|e] eqn:Hr; [|discriminate].
  constructor; eauto.
Qed.

Context (P : A → Prop) `{∀ x, Decision (P x)}.

Lemma find_Some_list_find l x :
  find P l = Some x ↔ ∃ i, list_find P l = Some (i, x).
Proof.
  unfold find. destruct (list_find P l) as [[i y]|]; cbn; split.
  - intros [= ->]. eauto.
  - intros [j [= _ ->]]. reflexivity.
  - discriminate.
  - intros [? [=]].
Qed.

Lemma find_None l : find P l = None ↔ Forall (λ x, ¬ P x) l.
Proof.
  unfold find. rewrite fmap_None. apply list_find_None.
Qed.

Lemma findIndex_None l : Forall (λ x, ¬ P x) l → findIndex P l = -1.
Proof.
  intros Hl. unfold findIndex. rewrite (proj2 (list_find_None P l) Hl). reflexivity.
Qed.

Lemma findIndex_Some l i x : list_find P l = Some (i, x) → findIndex P l = Z.of_nat i.
Proof. intros Hl. unfold findIndex. rewrite Hl. reflexivity. Qed.

Lemma list_find_filter (Q : A → Prop) `{∀ x, Decision (Q x)} l i x :
  list_find P l = Some (i, x) → Q x →
  list_find P (filter Q l) = Some (length (filter Q (take i l)), x).
Proof.
  revert i. induction l as [|y l IH]; intros i Hfind HQ; [discriminate|].
  cbn in Hfind. destruct (decide (P y)) as [HP|HP].
  - injection Hfind as <- <-. rewrite filter_cons_True by done.
    cbn. rewrite decide_True by done. reflexivity.
  - destruct (list_find P l) as [[j z]|] eqn:Hl; [|discriminate].
    cbn in Hfind. injection Hfind as <- <-.
    specialize (IH j eq_refl HQ). cbn [take].
    rewrite !filter_cons. destruct (decide (Q y)).
    + cbn. rewrite decide_False by done. rewrite IH. reflexivity.
    + exact IH.
Qed.

Lemma slice_take l (n : Z) :
  0 <= n <= Z.of_nat (length l) → slice l 0 n = take (Z.to_nat n) l.
Proof.
  intros Hn. unfold slice.
  rewrite (decide_False (P:=0 < 0)) by lia.
  rewrite (decide_False (P:=Z.of_nat (length l) < n)) by lia.
  rewrite (decide_False (P:=n < 0)) by lia.
  rewrite (decide_False (P:=n < 0)) by lia.
  rewrite Z.sub_0_r. reflexivity.
Qed.

End arrays.

End JSFacts.

(** ** [identName] computes the bijective base-26 numeration *)

Module IdentNameFacts.
Import BlockEditor Notions.

Lemma string_app_nil_l (s : string) : EmptyString +:+ s = s.
Proof. reflexivity. Qed.

Lemma string_app_cons c (s1 s2 : string) :
  String c s1 +:+ s2 = String c (s1 +:+ s2).
Proof. reflexivity. Qed.

Lemma string_app_nil_r (s : string) : s +:+ EmptyString = s.
Proof.
  induction s as [|c s IH]; [reflexivity|].
  rewrite string_app_cons, IH. reflexivity.
Qed.

Lemma string_app_assoc (s1 s2 s3 : string) :
  (s1 +:+ s2) +:+ s3 = s1 +:+ (s2 +:+ s3).
Proof.
  induction s1 as [|c s1 IH]; [reflexivity|].
  rewrite !string_app_cons, IH. reflexivity.
Qed.

Lemma identName_loop_unfold b sp :
  identName_loop b sp =
  match b !! sp with
  | None => b
  | Some x =>
      if decide (25 < x)
      then identName_loop
             (<[sp := Z.rem x 26]> (array_set_next (sp + 1) (x / 26 - 1) b)) (sp + 1)
      else identName_loop b (sp + 1)
  end.
Proof.
  funelim (identName_loop b sp).
  - rewrite e. reflexivity.
  - rewrite Hx. destruct (decide (25 < x)); [reflexivity|lia].
  - rewrite Hx. destruct (decide (25 < x)); [lia|reflexivity].
Qed.

(** The loop on [pre ++ [x]] at the last index leaves [pre] alone and
    replaces [x] by its digits. *)
Lemma identName_loop_digits (n : nat) : ∀ (x : Z) (pre : list Z),
  Z.to_nat x = n → 0 <= x →
  ∃ ds, identName_loop (pre ++ [x]) (length pre) = pre ++ ds
        ∧ Forall (λ d, 0 <= d <= 25) ds ∧ digits_value ds = x + 1.
Proof.
  induction n as [n IH] using lt_wf_ind. intros x pre Hn Hx.
  rewrite identName_loop_unfold.
  rewrite lookup_app_r by lia. rewrite Nat.sub_diag. simpl.
  destruct (decide (25 < x)) as [Hgt|Hle].
  - unfold array_set_next. rewrite decide_False by (rewrite length_app; simpl; lia).
    replace (<[length pre:=x `rem` 26]> ((pre ++ [x]) ++ [x `div` 26 - 1]))
      with ((pre ++ [x `rem` 26]) ++ [x `div` 26 - 1]).
    2:{ rewrite <- !app_assoc. rewrite insert_app_r_alt by lia.
        rewrite Nat.sub_diag. reflexivity. }
    replace (length pre + 1)%nat with (length (pre ++ [x `rem` 26]))
      by (rewrite length_app; reflexivity).
    assert (Hq : 1 <= x `div` 26) by (apply Z.div_le_lower_bound; lia).
    assert (Hq' : x `div` 26 <= x) by (apply Z.div_le_upper_bound; lia).
    destruct (IH (Z.to_nat (x `div` 26 - 1)) ltac:(lia) (x `div` 26 - 1)
                (pre ++ [x `rem` 26]) eq_refl ltac:(lia)) as (ds & Hloop & Hds & Hval).
    exists (x `rem` 26 :: ds). rewrite Hloop, <- app_assoc. split; [reflexivity|].
    rewrite Z.rem_mod_nonneg by lia.
    split.
    + constructor; [|exact Hds]. pose proof (Z.mod_pos_bound x 26). lia.
    + simpl. rewrite Hval. pose proof (Z.div_mod x 26). lia.
  - rewrite identName_loop_unfold.
    rewrite lookup_ge_None_2 by (rewrite length_app; simpl; lia).
    exists [x]. split; [reflexivity|]. split; [repeat constructor; lia|simpl; lia].
Qed.

Lemma ascii_code_small (n : Z) :
  0 <= n < 256 → Z.of_N (N_of_ascii (ascii_of_N (Z.to_N n))) = n.
Proof.
  intros Hn. rewrite N_ascii_embedding by lia. lia.
Qed.

Lemma upper_fromCharCode (d : Z) :
  0 <= d <= 25 →
  upper_ascii (fromCharCode (charCodeAt0_a + d)) = ascii_of_N (Z.to_N (65 + d)).
Proof.
  intros Hd. unfold upper_ascii, fromCharCode, charCodeAt0_a.
  rewrite Z.mod_small by lia. rewrite ascii_code_small by lia.
  rewrite decide_True by lia. f_equal. f_equal. lia.
Qed.

Lemma toUpperCase_out (b : list Z) : ∀ out : string,
  Forall (λ d, 0 <= d <= 25) b →
  toUpperCase
    (fold_left (λ out bi, String (fromCharCode (charCodeAt0_a + bi)) out) b out)
  = upper_digits b +:+ toUpperCase out.
Proof.
  induction b as [|d b IH]; intros out Hb; [reflexivity|].
  inversion Hb as [|? ? Hd Hb']; subst.
  cbn [fold_left]. rewrite IH by done. cbn [toUpperCase upper_digits].
  rewrite upper_fromCharCode by done.
  rewrite string_app_assoc. reflexivity.
Qed.

Lemma letters_app (s1 s2 : string) :
  letters (s1 +:+ s2) ↔ letters s1 ∧ letters s2.
Proof.
  induction s1 as [|c s1 IH].
  - rewrite string_app_nil_l. cbn. tauto.
  - rewrite string_app_cons. cbn. rewrite IH. tauto.
Qed.

Lemma bijective26_acc_app (s1 s2 : string) : ∀ acc,
  bijective26_acc acc (s1 +:+ s2) = bijective26_acc (bijective26_acc acc s1) s2.
Proof.
  induction s1 as [|c s1 IH]; intros acc; [reflexivity|].
  rewrite string_app_cons. cbn. apply IH.
Qed.

Lemma upper_digits_letters (ds : list Z) :
  Forall (λ d, 0 <= d <= 25) ds → letters (upper_digits ds).
Proof.
  induction 1 as [|d ds Hd _ IH]; [exact I|].
  cbn [upper_digits]. apply letters_app. split; [exact IH|].
  cbn. split; [|exact I]. unfold is_letter, letter_digit.
  rewrite ascii_code_small by lia. lia.
Qed.

Lemma upper_digits_value (ds : list Z) :
  Forall (λ d, 0 <= d <= 25) ds →
  bijective26_value (upper_digits ds) = digits_value ds.
Proof.
  unfold bijective26_value.
  induction 1 as [|d ds Hd _ IH]; [reflexivity|].
  cbn [upper_digits digits_value]. rewrite bijective26_acc_app, IH. cbn.
  unfold letter_digit. rewrite ascii_code_small by lia. lia.
Qed.

(** For an index that [findIndex] can return, [-1] included, the code
    units given to [String.fromCharCode] lie between 96 and 122. *)
Lemma identName_code_units (a : Z) :
  -1 <= a →
  Forall (λ d, 96 <= charCodeAt0_a + d <= 122) (identName_loop [a] 0).
Proof.
  intros Ha. unfold charCodeAt0_a. destruct (decide (a = -1)) as [->|Hne].
  - rewrite identName_loop_unfold. cbn [lookup list_lookup].
    rewrite decide_False by lia.
    rewrite identName_loop_unfold. cbn. repeat constructor; lia.
  - destruct (identName_loop_digits (Z.to_nat a) a [] eq_refl ltac:(lia))
      as (ds & Hloop & Hds & _).
    cbn in Hloop. rewrite Hloop. eapply Forall_impl; [exact Hds|].
    cbn. intros d Hd. lia.
Qed.

(** [identName k] is the bijective base-26 string of [k + 1]. *)
Lemma identName_bijective26 (k : Z) :
  0 <= k → bijective26 (k + 1) (identName k).
Proof.
  intros Hk. unfold identName.
  destruct (identName_loop_digits (Z.to_nat k) k [] eq_refl Hk) as (ds & Hloop & Hds & Hval).
  cbn in Hloop. rewrite Hloop. unfold identName_out.
  rewrite toUpperCase_out by done. cbn [toUpperCase]. rewrite string_app_nil_r.
  split; [apply upper_digits_letters; done|].
  rewrite upper_digits_value by done. exact Hval.
Qed.

End IdentNameFacts.

Module NumerationFacts.
Import BlockEditor Notions.

Lemma bijective26_acc_chars (s : string) : ∀ acc,
  bijective26_acc acc s
  = fold_left (λ acc c, 26 * acc + letter_digit c) (String.list_ascii_of_string s) acc.
Proof.
  induction s as [|c s IH]; intros acc; [reflexivity|]. cbn. apply IH.
Qed.

Lemma letters_chars (s : string) :
  letters s ↔ Forall is_letter (String.list_ascii_of_string s).
Proof.
  induction s as [|c s IH]; cbn.
  - split; [constructor|done].
  - rewrite Forall_cons, IH. tauto.
Qed.

Lemma chars_value_snoc l c :
  chars_value (l ++ [c]) = 26 * chars_value l + letter_digit c.
Proof. unfold chars_value. rewrite fold_left_app. reflexivity. Qed.

Lemma chars_value_nonneg l : Forall is_letter l → 0 <= chars_value l.
Proof.
  induction l as [|c l IH] using rev_ind; intros Hl; [done|].
  rewrite chars_value_snoc. rewrite Forall_app, Forall_singleton in Hl. destruct Hl as [Hl Hc]. unfold is_letter in Hc. specialize (IH Hl). lia.
Qed.

Lemma letter_digit_inj c c' : letter_digit c = letter_digit c' → c = c'.
Proof.
  unfold letter_digit. intros Hc.
  rewrite <- (ascii_N_embedding c), <- (ascii_N_embedding c'). f_equal. lia.
Qed.

Lemma chars_value_inj l : ∀ l',
  Forall is_letter l → Forall is_letter l' → chars_value l = chars_value l' → l = l'.
Proof.
  induction l as [|c l IH] using rev_ind; intros l' Hl Hl' Hv.
  - destruct l' as [|c' l' _] using rev_ind; [done|].
    rewrite chars_value_snoc in Hv. rewrite Forall_app, Forall_singleton in Hl'. destruct Hl' as [Hl' Hc']. unfold is_letter in Hc'.
    pose proof (chars_value_nonneg l' Hl'). cbn in Hv. lia.
  - rewrite Forall_app, Forall_singleton in Hl. destruct Hl as [Hl Hc].
    unfold is_letter in Hc. pose proof (chars_value_nonneg l Hl).
    rewrite chars_value_snoc in Hv.
    destruct l' as [|c' l' _] using rev_ind; [cbn in Hv; lia|].
    rewrite Forall_app, Forall_singleton in Hl'. destruct Hl' as [Hl' Hc'].
    unfold is_letter in Hc'. rewrite chars_value_snoc in Hv.
    assert (letter_digit c = letter_digit c' ∧ chars_value l = chars_value l') as [Hd Hr] by lia.
    rewrite (IH l' Hl Hl' Hr), (letter_digit_inj _ _ Hd). reflexivity.
Qed.

(** A number has at most one bijective base-26 letter string. *)
Lemma bijective26_unique n s s' : bijective26 n s → bijective26 n s' → s = s'.
Proof.
  intros [Hs Hv] [Hs' Hv']. unfold bijective26_value in *.
  rewrite bijective26_acc_chars in Hv, Hv'.
  apply letters_chars in Hs, Hs'.
  rewrite <- (String.string_of_list_ascii_of_string s),
          <- (String.string_of_list_ascii_of_string s').
  f_equal. apply chars_value_inj; [done..|]. unfold chars_value. congruence.
Qed.

End NumerationFacts.

(** ** Facts about the selectors *)

Module SelectorFacts.
Import BlockEditor Notions JSFacts.

Implicit Types (reg : Registry) (state : BlockEditorState) (b : FormBlock)
  (blockId : string).

(** The callback of [getEditableFields] on a block. *)
Lemma editable_callback_registered reg b :
  Registered reg b →
  (s ← get_prop supports (getBlockTypes reg !! name b);
   mret (bool_decide (editable s = true)))
  = Ok (bool_decide (EditableField reg b)).
Proof.
  intros [bt Hbt]. rewrite Hbt. cbn.
  f_equal. apply bool_decide_ext. unfold EditableField. rewrite Hbt. cbn.
  split; [congruence|]. intros [= ->]. reflexivity.
Qed.

Lemma editable_callback_unregistered reg b :
  ¬ Registered reg b →
  (s ← get_prop supports (getBlockTypes reg !! name b);
   mret (bool_decide (editable s = true)))
  = Throw TypeError.
Proof.
  unfold Registered. intros Hb. destruct (getBlockTypes reg !! name b) eqn:E.
  - destruct Hb. eauto.
  - reflexivity.
Qed.

Lemma EditableField_Registered reg b : EditableField reg b → Registered reg b.
Proof.
  unfold EditableField, Registered. destruct (getBlockTypes reg !! name b); [eauto|done].
Qed.

Lemma getEditableFields_registered reg state :
  AllRegistered reg state →
  getEditableFields reg state = Ok (filter (EditableField reg) (items (blocks state))).
Proof.
  intros Hall. unfold getEditableFields, getBlocks.
  rewrite (filter_r_Ok _ (λ b, bool_decide (EditableField reg b))).
  - f_equal. apply list_filter_iff. intros b. apply bool_decide_eq_true.
  - eapply Forall_impl; [exact Hall|]. intros b Hb.
    apply editable_callback_registered, Hb.
Qed.

Lemma getEditableFields_unregistered reg state b :
  b ∈ items (blocks state) → ¬ Registered reg b →
  getEditableFields reg state = Throw TypeError.
Proof.
  intros Hin Hb. unfold getEditableFields, getBlocks.
  eapply filter_r_Throw; [exact Hin|]. apply editable_callback_unregistered, Hb.
Qed.

Lemma getEditableFields_inv reg state fields :
  getEditableFields reg state = Ok fields →
  AllRegistered reg state
  ∧ fields = filter (EditableField reg) (items (blocks state)).
Proof.
  intros Hok. assert (Hall : AllRegistered reg state).
  { apply filter_r_inv in Hok. eapply Forall_impl; [exact Hok|].
    intros b [k Hk]. destruct (decide (Registered reg b)) as [|Hn]; [done|].
    rewrite editable_callback_unregistered in Hk by done. discriminate. }
  split; [exact Hall|]. rewrite getEditableFields_registered in Hok by done.
  congruence.
Qed.

Lemma getBlockById_list_find state blockId b :
  getBlockById state blockId = Some b
  ↔ ∃ i, list_find (λ x, id x = blockId) (items (blocks state)) = Some (i, b).
Proof.
  unfold getBlockById. rewrite <- find_Some_list_find.
  destruct (find _ _); done.
Qed.

Lemma getBlockById_absent state blockId :
  Forall (λ x, id x ≠ blockId) (items (blocks state)) →
  getBlockById state blockId = None.
Proof.
  intros Habs. unfold getBlockById.
  rewrite (proj2 (find_None (λ x, id x = blockId) _) Habs). reflexivity.
Qed.

(** With pairwise distinct ids a block is found by its id, at its index. *)
Lemma list_find_unique_id (l : list FormBlock) (j : nat) b :
  NoDup (id <$> l) → l !! j = Some b →
  list_find (λ x, id x = id b) l = Some (j, b).
Proof.
  intros Hnd Hj. apply list_find_Some. split_and!; [done..|].
  intros k y Hk Hlt Hid.
  assert (k = j); [|lia].
  eapply (NoDup_lookup _ _ _ (id b) Hnd); rewrite list_lookup_fmap.
  - rewrite Hk. cbn. congruence.
  - rewrite Hj. reflexivity.
Qed.


Lemma getBlockOrderById_editable_index reg state blockId b i :
  blockEditorState reg = state → AllRegistered reg state →
  list_find (λ x, id x = blockId) (items (blocks state)) = Some (i, b) →
  EditableField reg b →
  getBlockOrderById reg state blockId
  = Ok (Some (OrderNumber
        (Z.of_nat (length (filter (EditableField reg) (take i (items (blocks state))))) + 1))).
Proof.
  intros Hst Hall Hfind Hed. unfold getBlockOrderById.
  rewrite (proj2 (getBlockById_list_find state blockId b)) by eauto.
  rewrite Hst, getEditableFields_registered by done. cbn.
  unfold EditableField in Hed.
  destruct (getBlockTypes reg !! name b) as [bt|] eqn:Hbt; [|done].
  cbn in Hed. injection Hed as Hed. cbn. rewrite bool_decide_eq_true_2 by done.
  assert (Hed' : EditableField reg b)
    by (unfold EditableField; rewrite Hbt; cbn; congruence).
  pose proof (list_find_filter (λ x, id x = blockId) (EditableField reg) _ _ _ Hfind Hed')
    as Hf.
  rewrite (findIndex_Some (λ x, id x = blockId) _ _ _ Hf).
  reflexivity.
Qed.

Lemma getBlockOrderById_letters_index reg state blockId b i :
  blockEditorState reg = state → AllRegistered reg state →
  list_find (λ x, id x = blockId) (items (blocks state)) = Some (i, b) →
  ¬ EditableField reg b →
  getBlockOrderById reg state blockId
  = Ok (Some (OrderString (identName (Z.of_nat (same_named_before state b i))))).
Proof.
  intros Hst Hall Hfind Hned. unfold getBlockOrderById.
  rewrite (proj2 (getBlockById_list_find state blockId b)) by eauto.
  rewrite Hst, getEditableFields_registered by done. cbn.
  pose proof Hfind as Hin. apply list_find_Some in Hin as (Hin & _ & _).
  apply list_elem_of_lookup_2 in Hin.
  destruct (proj1 (Forall_forall _ _) Hall b Hin) as [bt Hbt].
  rewrite Hbt. cbn.
  rewrite bool_decide_eq_false_2.
  2:{ intros Hed. apply Hned. unfold EditableField. rewrite Hbt. cbn. congruence. }
  pose proof (list_find_filter (λ x, id x = blockId) (λ x, name x = name b) _ _ _
                Hfind eq_refl) as Hf.
  rewrite (findIndex_Some (λ x, id x = blockId) _ _ _ Hf).
  reflexivity.
Qed.

End SelectorFacts.

Module PreviousFieldsFacts.
Import BlockEditor Notions JSFacts SelectorFacts.

Implicit Types (reg : Registry) (state : BlockEditorState) (b : FormBlock)
  (blockId : string).

Section forEach_push.
Context {A B C : Type} (keep : A → bool) (g : A → result C) (mk : A → C → B).

Lemma forEach_push_Ok (h : A → C) (l : list A) : ∀ acc,
  Forall (λ x, keep x = true → g x = Ok (h x)) l →
  forEach l
    (λ acc x, if keep x then o ← g x; Ok (acc ++ [mk x o]) else Ok acc) acc
  = Ok (acc ++ ((λ x, mk x (h x)) <$> filter (λ x, keep x = true) l)).
Proof.
  induction l as [|x l IH]; intros acc Hl.
  - cbn. rewrite app_nil_r. reflexivity.
  - inversion Hl as [|? ? Hx Hl']; subst. cbn [forEach].
    rewrite filter_cons. destruct (keep x) eqn:Hk.
    + rewrite Hx by done. cbn. rewrite IH by done.
      rewrite <- app_assoc. reflexivity.
    + cbn. rewrite IH by done. reflexivity.
Qed.


End forEach_push.

(** The guarded test [blockType?.supports?.editable]. *)
Lemma guarded_editable reg b :
  truthy (get_prop_opt editable (get_prop_opt supports (getBlockType reg (name b))))
  = bool_decide (EditableField reg b).
Proof.
  unfold getBlockType, get_prop_opt.
  destruct (blockTypes reg !! name b) as [bt|] eqn:Hbt; cbn.
  - destruct (editable (supports bt)) eqn:He; symmetry.
    + apply bool_decide_eq_true_2. unfold EditableField, getBlockTypes.
      rewrite Hbt. cbn. congruence.
    + apply bool_decide_eq_false_2. unfold EditableField, getBlockTypes.
      rewrite Hbt. cbn. congruence.
  - symmetry. apply bool_decide_eq_false_2. unfold EditableField, getBlockTypes.
    rewrite Hbt. done.
Qed.

Lemma getPrevious_unfold reg state blockId b i :
  list_find (λ x, id x = blockId) (items (blocks state)) = Some (i, b) →
  getPreviousEditableFieldsWithOrder reg state blockId
  = forEach (take i (items (blocks state)))
      (λ acc x,
         if truthy (get_prop_opt editable (get_prop_opt supports (getBlockType reg (name x))))
         then o ← getBlockOrderById reg state (id x);
              Ok (acc ++ [{| block := x; order := o |}])
         else Ok acc) [].
Proof.
  intros Hfind. unfold getPreviousEditableFieldsWithOrder, getBlocks.
  rewrite (findIndex_Some (λ x, id x = blockId) _ _ _ Hfind).
  assert (Hi : (i < length (items (blocks state)))%nat).
  { apply list_find_Some in Hfind as (Hi & _). eapply lookup_lt_Some, Hi. }
  destruct (decide (Z.of_nat i > 0)) as [Hpos|Hz].
  - rewrite slice_take by lia. rewrite Nat2Z.id. reflexivity.
  - assert (i = 0)%nat as -> by lia. reflexivity.
Qed.

Lemma filter_guarded_editable reg (l : list FormBlock) :
  filter (λ x, truthy (get_prop_opt editable
                         (get_prop_opt supports (getBlockType reg (name x)))) = true) l
  = filter (EditableField reg) l.
Proof.
  apply list_filter_iff. intros x. rewrite guarded_editable.
  apply bool_decide_eq_true.
Qed.


(** With pairwise distinct ids, the [j]-th editable field before the
    target has order [j + 1]. *)
Lemma previous_field_order reg state (i j : nat) x :
  blockEditorState reg = state → AllRegistered reg state → UniqueIds state →
  filter (EditableField reg) (take i (items (blocks state))) !! j = Some x →
  getBlockOrderById reg state (id x) = Ok (Some (OrderNumber (Z.of_nat j + 1))).
Proof.
  intros Hst Hall Huniq Hj.
  assert (Hx : x ∈ filter (EditableField reg) (take i (items (blocks state))))
    by (eapply list_elem_of_lookup_2, Hj).
  apply list_elem_of_filter in Hx as [Hed Hx].
  apply elem_of_take in Hx as (pos & Hpos & _).
  pose proof (list_find_unique_id _ _ _ Huniq Hpos) as Hfind.
  rewrite (getBlockOrderById_editable_index _ _ _ _ _ Hst Hall Hfind Hed).
  do 3 f_equal.
  (* the editable fields before [x] in the sequence are the [j] first ones *)
  pose proof (list_find_filter (λ y, id y = id x) (EditableField reg) _ _ _ Hfind Hed) as Hf.
  assert (Hfields : filter (EditableField reg) (items (blocks state)) !! j = Some x).
  { rewrite <- (take_drop i (items (blocks state))) at 1.
    rewrite filter_app, lookup_app_l; [done|]. eapply lookup_lt_Some, Hj. }
  assert (Hnd : NoDup (id <$> filter (EditableField reg) (items (blocks state)))).
  { eapply sublist_NoDup; [exact Huniq|]. apply fmap_sublist, sublist_filter. }
  pose proof (list_find_unique_id _ _ _ Hnd Hfields) as Hf'.
  rewrite Hf in Hf'. injection Hf' as ->. reflexivity.
Qed.




(** Nothing editable before the target: the selector returns the empty
    sequence, whatever the registry says of the other blocks. *)
Lemma getPrevious_nothing_editable reg state blockId b i :
  list_find (λ x, id x = blockId) (items (blocks state)) = Some (i, b) →
  Forall (λ x, ¬ EditableField reg x) (take i (items (blocks state))) →
  getPreviousEditableFieldsWithOrder reg state blockId = Ok [].
Proof.
  intros Hfind Hnone. rewrite (getPrevious_unfold _ _ _ _ _ Hfind).
  rewrite (forEach_push_Ok _ _ (λ x o, {| block := x; order := o |}) (λ _, None)).
  - rewrite filter_guarded_editable.
    replace (filter (EditableField reg) (take i (items (blocks state)))) with (@nil FormBlock);
      [reflexivity|].
    symmetry. induction Hnone as [|x l Hx _ IH]; [reflexivity|].
    rewrite filter_cons_False by done. exact IH.
  - eapply Forall_impl; [exact Hnone|]. intros x Hx Hk.
    rewrite guarded_editable in Hk. apply bool_decide_eq_true in Hk. done.
Qed.

(** A block of the state with an unregistered name makes the order of
    every block of the state fail. *)
Lemma getBlockOrderById_unregistered_elsewhere reg state blockId b u :
  blockEditorState reg = state →
  getBlockById state blockId = Some b →
  u ∈ items (blocks state) → ¬ Registered reg u →
  getBlockOrderById reg state blockId = Throw TypeError.
Proof.
  intros Hst Hb Hu Hn. unfold getBlockOrderById. rewrite Hb, Hst.
  rewrite (getEditableFields_unregistered _ _ _ Hu Hn). reflexivity.
Qed.


End PreviousFieldsFacts.

(** ** Facts about the exported selectors and their caches *)

Module ExportedFacts.
Import BlockEditor Notions JSFacts SelectorFacts PreviousFieldsFacts ExportedNotions.

Implicit Types (reg : Registry) (state : BlockEditorState) (b : FormBlock)
  (blockId : string) (cs : Exported.Caches).

(** A selector made by [createSelector] returns what its cache answers,
    and the value of its function when the cache has no answer. *)
Lemma createSelector_value {S A V D : Type} `{EqDecision A, EqDecision D}
    (selector : S → A → V) (getDependants : S → A → list D)
    (c : Memo.Cache) (source : S) (args : A) :
  (Memo.createSelector selector getDependants c source args).1
  = default (selector source args)
      (cache_answers c (getDependants source args) args).
Proof.
  unfold Memo.createSelector, cache_answers.
  destruct (decide (Memo.lastDependants c = Some (getDependants source args))).
  - destruct (list_find _ (Memo.nodes c)) as [[i node]|]; reflexivity.
  - reflexivity.
Qed.

Lemma cache_answers_empty {A V D : Type} `{EqDecision A, EqDecision D}
    (dependants : list D) (args : A) :
  cache_answers (@Memo.empty_cache A V D) dependants args = None.
Proof. reflexivity. Qed.

Lemma CoherentAt_cold reg state blockId :
  CoherentAt reg state blockId Exported.cold_caches.
Proof. split_and!; intros v Hv; discriminate Hv. Qed.

Lemma getBlocks_coherent state cs :
  (∀ v, cache_answers (Exported.getBlocks_c cs) (getBlocks_dependants state) ()
          = Some v → v = blocks state) →
  (Exported.getBlocks state cs).1 = Ok (blocks state).
Proof.
  intros Hc. unfold Exported.getBlocks. cbv zeta. cbn [fst].
  unfold Memo.getBlocks. f_equal. etrans; [apply createSelector_value|].
  destruct (cache_answers _ _ _) as [v|]; [|reflexivity].
  cbn. rewrite (Hc v eq_refl). reflexivity.
Qed.

Lemma getBlockById_coherent state blockId cs :
  (∀ v, cache_answers (Exported.getBlockById_c cs)
          (getBlockById_dependants state blockId) blockId = Some v →
        v = getBlockById state blockId) →
  (Exported.getBlockById state blockId cs).1 = Ok (getBlockById state blockId).
Proof.
  intros Hc. unfold Exported.getBlockById. cbv zeta. cbn [fst].
  unfold Memo.getBlockById. f_equal. etrans; [apply createSelector_value|].
  destruct (cache_answers _ _ _) as [v|]; [|reflexivity].
  cbn. rewrite (Hc v eq_refl). reflexivity.
Qed.

Lemma getEditableFields_coherent reg state cs :
  (∀ v, cache_answers (Exported.getBlocks_c cs) (getBlocks_dependants state) ()
          = Some v → v = blocks state) →
  (Exported.getEditableFields reg state cs).1 = BlockEditor.getEditableFields reg state.
Proof.
  intros Hc. pose proof (getBlocks_coherent state cs Hc) as Hb.
  unfold Exported.getEditableFields, Exported.call_bind.
  destruct (Exported.getBlocks state cs) as [[v|e] cs'] eqn:Hcall; cbn in Hb;
    [|discriminate].
  injection Hb as ->. reflexivity.
Qed.

(** With coherent caches the exported [getBlockOrderById] returns what
    its function computes. *)
Lemma getBlockOrderById_coherent reg state blockId cs :
  (∀ v, cache_answers (Exported.getBlocks_c cs)
          (getBlocks_dependants (blockEditorState reg)) () = Some v →
        v = blocks (blockEditorState reg)) →
  (∀ v, cache_answers (Exported.getBlockById_c cs)
          (getBlockById_dependants state blockId) blockId = Some v →
        v = getBlockById state blockId) →
  (Exported.getBlockOrderById reg state blockId cs).1
  = BlockEditor.getBlockOrderById reg state blockId.
Proof.
  intros Hblocks Hid. pose proof (getBlockById_coherent state blockId cs Hid) as Hb.
  unfold Exported.getBlockOrderById, BlockEditor.getBlockOrderById.
  unfold Exported.call_bind at 1.
  unfold Exported.getBlockById in *. cbn in Hb. injection Hb as Hb. rewrite Hb.
  destruct (getBlockById state blockId) as [b|]; [|reflexivity].
  set (cs1 := {| Exported.getBlocks_c := Exported.getBlocks_c cs |}).
  pose proof (getEditableFields_coherent reg (blockEditorState reg) cs1 Hblocks) as He.
  unfold Exported.call_bind at 1.
  destruct (Exported.getEditableFields reg (blockEditorState reg) cs1)
    as [[fields|e] cs2] eqn:Hcall; cbn in He; rewrite <- He; [|reflexivity].
  unfold Exported.call_bind, Exported.call_lift, Exported.call_ret.
  destruct (getBlockTypes reg !! name b) as [bt|]; cbn; [|reflexivity].
  destruct (bool_decide _); reflexivity.
Qed.

(** An id that no block carries: the exported
    [getPreviousEditableFieldsWithOrder] returns what its cache answers,
    and the empty sequence when the cache has no answer and [getBlocks]
    returns the blocks of the state. *)
Lemma getPrevious_absent_coherent reg state blockId cs :
  Forall (λ b, id b ≠ blockId) (items (blocks state)) →
  CoherentAt reg state blockId cs →
  (Exported.getPreviousEditableFieldsWithOrder reg state blockId cs).1 = Ok [].
Proof.
  intros Habs (Hblocks & _ & Hprev).
  assert (Hpure : BlockEditor.getPreviousEditableFieldsWithOrder reg state blockId = Ok []).
  { unfold BlockEditor.getPreviousEditableFieldsWithOrder, getBlocks.
    rewrite (findIndex_None (λ b, id b = blockId) _ Habs). reflexivity. }
  unfold Exported.getPreviousEditableFieldsWithOrder.
  specialize (Hprev). unfold cache_answers in Hprev.
  destruct (decide (Memo.lastDependants (Exported.getPrevious_c cs)
                    = Some (getPreviousEditableFieldsWithOrder_dependants state blockId)))
    as [Hdeps|Hdeps].
  - destruct (list_find _ (Memo.nodes (Exported.getPrevious_c cs))) as [[i node]|] eqn:Hfind.
    + cbn. specialize (Hprev node.2 eq_refl). rewrite Hpure in Hprev.
      injection Hprev as <-. reflexivity.
    + set (cs1 := {| Exported.getBlocks_c := Exported.getBlocks_c cs |}).
      pose proof (getBlocks_coherent state cs1 Hblocks) as Hb.
      unfold Exported.getPrevious_selector, Exported.call_bind.
      destruct (Exported.getBlocks state cs1) as [[v|e] cs2] eqn:Hcall; cbn in Hb;
        [|discriminate].
      injection Hb as ->.
      rewrite (findIndex_None (λ b, id b = blockId) _ Habs). reflexivity.
  - cbn [list_find].
    set (cs1 := {| Exported.getBlocks_c := Exported.getBlocks_c cs |}).
    pose proof (getBlocks_coherent state cs1 Hblocks) as Hb.
    unfold Exported.getPrevious_selector, Exported.call_bind.
    destruct (Exported.getBlocks state cs1) as [[v|e] cs2] eqn:Hcall; cbn in Hb;
      [|discriminate].
    injection Hb as ->.
    rewrite (findIndex_None (λ b, id b = blockId) _ Habs). reflexivity.
Qed.

(** When the exported [getBlockById] returns [undefined], so does the
    exported [getBlockOrderById]; when it returns a block, the order is
    a number, a string or an exception. *)
Lemma getBlockOrderById_by_formBlock reg state blockId cs :
  match (Exported.getBlockById state blockId cs).1 with
  | Ok None => (Exported.getBlockOrderById reg state blockId cs).1 = Ok None
  | _ => (Exported.getBlockOrderById reg state blockId cs).1 ≠ Ok None
  end.
Proof.
  unfold Exported.getBlockOrderById, Exported.getBlockById, Exported.call_bind,
    Exported.call_lift, Exported.call_ret.
  cbv zeta. cbn [fst].
  destruct (Memo.getBlockById (Exported.getBlockById_c cs) state blockId).1 as [b|];
    [|reflexivity].
  destruct (Exported.getEditableFields _ _ _) as [[fields|e] cs2]; [|discriminate].
  destruct (getBlockTypes reg !! name b) as [bt|]; cbn; [|discriminate].
  destruct (bool_decide _); discriminate.
Qed.

Lemma CoherentAt_changed_tokens reg state blockId cs :
  Memo.lastDependants (Exported.getBlocks_c cs) ≠ Some (getBlocks_dependants state) →
  Memo.lastDependants (Exported.getBlockById_c cs)
    ≠ Some (getBlockById_dependants state blockId) →
  Memo.lastDependants (Exported.getPrevious_c cs)
    ≠ Some (getPreviousEditableFieldsWithOrder_dependants state blockId) →
  CoherentAt reg state blockId cs.
Proof.
  intros H1 H2 H3. unfold CoherentAt, cache_answers.
  rewrite !decide_False by done. split_and!; intros v Hv; discriminate Hv.
Qed.

Lemma ByIdCoherent_cold state : ByIdCoherent state Exported.cold_caches.
Proof. intros blockId v Hv. discriminate Hv. Qed.

End ExportedFacts.

(** ** The properties of the block-editor selectors *)

Module BlockEditorClaims.
Import BlockEditor Notions JSFacts IdentNameFacts NumerationFacts SelectorFacts
  PreviousFieldsFacts Examples MoreExamples ExportedNotions ExportedFacts.

Implicit Types (reg : Registry) (state : BlockEditorState) (b : FormBlock)
  (blockId : string) (cs : Exported.Caches).

Lemma mkRegistry_AllRegistered (l : list FormBlock) :
  forallb (λ b, bool_decide (is_Some (types !! name b))) l = true →
  AllRegistered (mkRegistry l) (mkState l).
Proof.
  intros Hl. unfold AllRegistered. cbn. apply Forall_forall. intros b Hb.
  rewrite forallb_forall in Hl. apply list_elem_of_In in Hb.
  specialize (Hl b Hb). apply bool_decide_eq_true in Hl. exact Hl.
Qed.

Lemma bijective26_check (n : Z) (s : string) :
  forallb (λ c, (1 <=? letter_digit c) && (letter_digit c <=? 26))
    (String.list_ascii_of_string s) = true →
  bijective26_value s = n → bijective26 n s.
Proof.
  intros Hl Hv. split; [|exact Hv]. apply letters_chars, Forall_forall.
  intros c Hc. rewrite forallb_forall in Hl. apply list_elem_of_In in Hc.
  specialize (Hl c Hc). unfold is_letter. lia.
Qed.

(** C6.  On a state whose block names are all registered,
    [getEditableFields] returns the blocks of [getBlocks] whose block type
    has [supports.editable === true], in their original order: the result
    is the filter of the sequence by that property, hence a subsequence
    of it that holds exactly the editable fields. *)
Theorem getEditableFields_filters_editable reg state :
  AllRegistered reg state →
  ∃ fields,
    getEditableFields reg state = Ok fields
    ∧ fields = filter (EditableField reg) (items (getBlocks state))
    ∧ fields `sublist_of` items (getBlocks state)
    ∧ ∀ b, b ∈ fields ↔ b ∈ items (getBlocks state) ∧ EditableField reg b.
Proof.
  intros Hall. eexists. split; [apply getEditableFields_registered, Hall|].
  split_and!; [reflexivity|apply sublist_filter|].
  intros b. rewrite list_elem_of_filter. tauto.
Qed.

(** On [A, B, C, D] the editable fields are [A, C, D]. *)
Lemma getEditableFields_filters_editable_witness :
  AllRegistered (mkRegistry abcd) (mkState abcd)
  ∧ getEditableFields (mkRegistry abcd) (mkState abcd)
    = Ok [mkBlock "A" "short-text"; mkBlock "C" "short-text"; mkBlock "D" "short-text"].
Proof.
  assert (H : AllRegistered (mkRegistry abcd) (mkState abcd))
    by (apply mkRegistry_AllRegistered; vm_compute; reflexivity).
  split; [exact H|].
  destruct (getEditableFields_filters_editable (mkRegistry abcd) (mkState abcd) H)
    as (fields & Hfields & -> & _).
  exact Hfields.
Defined.

(** C5.  A block whose name has no entry in the registry makes
    [getEditableFields] fail, and [getBlockOrderById] fail on that block's
    id and (read through the store) on the id of every other block: the
    callback and the selector read [.supports] of [undefined].  Such a
    state exists. *)
Theorem unregistered_block_type_crashes :
  (∀ reg state b,
     b ∈ items (blocks state) → ¬ Registered reg b →
     getEditableFields reg state = Throw TypeError)
  ∧ (∀ reg state blockId b,
       getBlockById state blockId = Some b → ¬ Registered reg b →
       getBlockOrderById reg state blockId = Throw TypeError)
  ∧ (∀ reg state blockId b u,
       blockEditorState reg = state → getBlockById state blockId = Some b →
       u ∈ items (blocks state) → ¬ Registered reg u →
       getBlockOrderById reg state blockId = Throw TypeError)
  ∧ ∃ reg state blockId,
      blockEditorState reg = state
      ∧ is_Some (getBlockById state blockId)
      ∧ getEditableFields reg state = Throw TypeError
      ∧ getBlockOrderById reg state blockId = Throw TypeError.
Proof.
  split_and!.
  - intros reg state b. apply getEditableFields_unregistered.
  - intros reg state blockId b Hb Hn. unfold getBlockOrderById. rewrite Hb.
    destruct (getEditableFields reg (blockEditorState reg)) as [fields|[]];
      [|reflexivity].
    cbn. unfold Registered in Hn.
    destruct (getBlockTypes reg !! name b); [destruct Hn; eauto|reflexivity].
  - intros reg state blockId b u.
    apply getBlockOrderById_unregistered_elsewhere.
  - exists (mkRegistry group_ghost), (mkState group_ghost), "U".
    split_and!; [reflexivity|by eexists|reflexivity..].
Qed.

(** On [G, U], with no block type for the name of [U]. *)
Lemma unregistered_block_type_crashes_witness :
  getEditableFields (mkRegistry group_ghost) (mkState group_ghost) = Throw TypeError
  ∧ getBlockOrderById (mkRegistry group_ghost) (mkState group_ghost) "U" = Throw TypeError
  ∧ getBlockOrderById (mkRegistry group_ghost) (mkState group_ghost) "G" = Throw TypeError.
Proof.
  destruct unregistered_block_type_crashes as (Hfields & Hown & Hother & _).
  assert (Hu : ¬ Registered (mkRegistry group_ghost) (mkBlock "U" "ghost"))
    by (intros [bt Hbt]; vm_compute in Hbt; discriminate).
  split_and!.
  - apply (Hfields _ _ (mkBlock "U" "ghost")); [|exact Hu].
    apply list_elem_of_In. vm_compute. tauto.
  - apply (Hown _ _ _ (mkBlock "U" "ghost")); [reflexivity|exact Hu].
  - apply (Hother _ _ _ (mkBlock "G" "group") (mkBlock "U" "ghost"));
      [reflexivity|reflexivity| |exact Hu].
    apply list_elem_of_In. vm_compute. tauto.
Defined.

(** C4, as stated, fails: [getBlockById] is memoised on the cache token
    of the id alone.  After a call that found the block, a call on a
    state from which the block is gone, its token still there, returns
    the block again, and [getBlockOrderById], which reads the block
    through [getBlockById], returns a label for it. *)
Lemma unknown_id_stale_counterexample :
  (Exported.getBlockById earlier_state "G" Exported.cold_caches).1
    = Ok (Some (mkBlock "G" "group"))
  ∧ Forall (λ b, id b ≠ "G") (items (blocks pruned_state))
  ∧ (Exported.getBlockById pruned_state "G" caches_after_earlier).1
    = Ok (Some (mkBlock "G" "group"))
  ∧ (Exported.getBlockOrderById (registry_at pruned_state) pruned_state "G"
       caches_after_earlier).1
    = Ok (Some (OrderString "`")).
Proof. split_and!; [reflexivity|constructor|reflexivity|reflexivity]. Qed.

(** C4, amended.  For an id that no block of the sequence carries, when
    the caches of the memoised selectors answer for this state and id
    only what the selectors compute on the state (cold caches, caches
    filled on this state, caches keyed on other tokens), nothing is
    raised: [getBlockById] and [getBlockOrderById] return [undefined] and
    [getPreviousEditableFieldsWithOrder] returns the empty sequence. *)
Theorem unknown_id_is_absent reg state blockId cs :
  Forall (λ b, id b ≠ blockId) (items (blocks state)) →
  CoherentAt reg state blockId cs →
  (Exported.getBlockById state blockId cs).1 = Ok None
  ∧ (Exported.getBlockOrderById reg state blockId cs).1 = Ok None
  ∧ (Exported.getPreviousEditableFieldsWithOrder reg state blockId cs).1 = Ok [].
Proof.
  intros Habs Hco. pose proof Hco as (_ & Hid & _).
  assert (Hnone : (Exported.getBlockById state blockId cs).1 = Ok None).
  { rewrite (getBlockById_coherent _ _ _ Hid), (getBlockById_absent _ _ Habs).
    reflexivity. }
  split_and!; [exact Hnone| |].
  - pose proof (getBlockOrderById_by_formBlock reg state blockId cs) as Horder.
    rewrite Hnone in Horder. exact Horder.
  - apply getPrevious_absent_coherent; done.
Qed.

(** On cold caches, and on the caches of the call that found the block
    ["G"] once the block is gone and its token replaced. *)
Lemma unknown_id_is_absent_witness :
  (Exported.getBlockById (mkState field_ghost_target) "missing" Exported.cold_caches).1
    = Ok None
  ∧ (Exported.getBlockOrderById (mkRegistry field_ghost_target)
       (mkState field_ghost_target) "missing" Exported.cold_caches).1 = Ok None
  ∧ (Exported.getPreviousEditableFieldsWithOrder (mkRegistry field_ghost_target)
       (mkState field_ghost_target) "missing" Exported.cold_caches).1 = Ok []
  ∧ (Exported.getBlockById retokened_state "G" caches_after_earlier).1 = Ok None.
Proof.
  destruct (unknown_id_is_absent (mkRegistry field_ghost_target)
              (mkState field_ghost_target) "missing" Exported.cold_caches
              ltac:(repeat constructor; vm_compute; discriminate)
              (CoherentAt_cold _ _ _)) as (H1 & H2 & H3).
  destruct (unknown_id_is_absent (registry_at retokened_state) retokened_state "G"
              caches_after_earlier ltac:(constructor)
              ltac:(apply CoherentAt_changed_tokens; vm_compute; discriminate))
    as (H4 & _).
  split_and!; assumption.
Defined.

(** C2, as stated, fails: a registered, editable block gets no number
    when another block of the state has an unregistered name, because
    [getEditableFields] fails on that block. *)
Lemma getBlockOrderById_editable_counterexample :
  getBlockById (mkState field_ghost) "A" = Some (mkBlock "A" "short-text")
  ∧ getBlockTypes (mkRegistry field_ghost) !! "short-text" = Some (mkType true)
  ∧ editable (supports (mkType true)) = true
  ∧ getEditableFields (mkRegistry field_ghost) (mkState field_ghost) = Throw TypeError
  ∧ getBlockOrderById (mkRegistry field_ghost) (mkState field_ghost) "A"
    = Throw TypeError.
Proof. split_and!; reflexivity. Qed.

(** C2, amended.  On a state whose block names are all registered, for
    the block [b] with id [blockId], at index [i] of the sequence, whose
    block type is registered with [supports.editable === true],
    [getBlockOrderById] returns [1 + k] where [k] is the index of the
    block in [getEditableFields (state)]: [b] sits there at index [k]
    and no field before it carries the id. *)
Theorem getBlockOrderById_editable_position reg state blockId b bt i :
  blockEditorState reg = state → AllRegistered reg state →
  list_find (λ x, id x = blockId) (items (blocks state)) = Some (i, b) →
  getBlockTypes reg !! name b = Some bt → editable (supports bt) = true →
  ∃ fields (k : nat),
    getEditableFields reg state = Ok fields
    ∧ fields !! k = Some b
    ∧ (∀ (j : nat) y, fields !! j = Some y → id y = blockId → (k ≤ j)%nat)
    ∧ getBlockOrderById reg state blockId = Ok (Some (OrderNumber (1 + Z.of_nat k))).
Proof.
  intros Hst Hall Hfind Hbt He.
  assert (Hed : EditableField reg b)
    by (unfold EditableField; rewrite Hbt; cbn; congruence).
  pose proof (list_find_filter (λ x, id x = blockId) (EditableField reg) _ _ _ Hfind Hed)
    as Hf.
  exists (filter (EditableField reg) (items (blocks state))),
         (length (filter (EditableField reg) (take i (items (blocks state))))).
  apply list_find_Some in Hf as (Hk & _ & Hfirst).
  split_and!.
  - apply getEditableFields_registered, Hall.
  - exact Hk.
  - intros j y Hj Hy.
    destruct (decide (length (filter (EditableField reg) (take i (items (blocks state))))
                      ≤ j)%nat) as [|Hlt]; [done|].
    destruct (Hfirst j y Hj ltac:(lia) Hy).
  - rewrite (getBlockOrderById_editable_index _ _ _ _ _ Hst Hall Hfind Hed).
    do 3 f_equal. lia.
Qed.

(** On [A(editable), B(non-editable), C(editable), D]: [A] is 1 and [C] is 2. *)
Lemma getBlockOrderById_editable_position_witness :
  getBlockOrderById (mkRegistry abcd) (mkState abcd) "A" = Ok (Some (OrderNumber 1))
  ∧ getBlockOrderById (mkRegistry abcd) (mkState abcd) "C" = Ok (Some (OrderNumber 2)).
Proof.
  assert (Hall : AllRegistered (mkRegistry abcd) (mkState abcd))
    by (apply mkRegistry_AllRegistered; vm_compute; reflexivity).
  split.
  - destruct (getBlockOrderById_editable_position (mkRegistry abcd) (mkState abcd)
                "A" (mkBlock "A" "short-text") (mkType true) 0
                eq_refl Hall eq_refl eq_refl eq_refl)
      as (fields & k & Hfields & Hk & _ & Hres).
    vm_compute in Hfields. injection Hfields as <-.
    destruct k as [|[|[|k]]]; try discriminate Hk. exact Hres.
  - destruct (getBlockOrderById_editable_position (mkRegistry abcd) (mkState abcd)
                "C" (mkBlock "C" "short-text") (mkType true) 2
                eq_refl Hall eq_refl eq_refl eq_refl)
      as (fields & k & Hfields & Hk & _ & Hres).
    vm_compute in Hfields. injection Hfields as <-.
    destruct k as [|[|[|k]]]; try discriminate Hk. exact Hres.
Defined.

(** C1, as stated, fails: a registered, non-editable block gets no label
    when another block of the state has an unregistered name, because the
    editable fields are computed (and fail) before the branch. *)
Lemma getBlockOrderById_not_editable_counterexample :
  getBlockById (mkState group_ghost) "G" = Some (mkBlock "G" "group")
  ∧ getBlockTypes (mkRegistry group_ghost) !! "group" = Some (mkType false)
  ∧ editable (supports (mkType false)) = false
  ∧ getBlockOrderById (mkRegistry group_ghost) (mkState group_ghost) "G"
    = Throw TypeError
  ∧ ¬ ∃ s, getBlockOrderById (mkRegistry group_ghost) (mkState group_ghost) "G"
           = Ok (Some (OrderString s)).
Proof.
  split_and!; [reflexivity..|]. intros [s Hs]. vm_compute in Hs. discriminate.
Qed.

(** C1, amended.  On a state whose block names are all registered, for
    the block [b] with id [blockId], at index [i] of the sequence, whose
    block type is registered and not editable, [getBlockOrderById]
    returns the bijective base-26 letter string of 1 + the number of
    blocks named like [b] before it, that is 1 + the index of [b] among
    the blocks with the same name. *)
Theorem getBlockOrderById_not_editable_bijective26 reg state blockId b bt i :
  blockEditorState reg = state → AllRegistered reg state →
  list_find (λ x, id x = blockId) (items (blocks state)) = Some (i, b) →
  getBlockTypes reg !! name b = Some bt → editable (supports bt) = false →
  ∃ s, getBlockOrderById reg state blockId = Ok (Some (OrderString s))
       ∧ filter (λ x, name x = name b) (items (blocks state))
           !! same_named_before state b i = Some b
       ∧ bijective26 (1 + Z.of_nat (same_named_before state b i)) s.
Proof.
  intros Hst Hall Hfind Hbt He.
  assert (Hned : ¬ EditableField reg b)
    by (unfold EditableField; rewrite Hbt; cbn; congruence).
  eexists. split_and!.
  - apply (getBlockOrderById_letters_index _ _ _ _ _ Hst Hall Hfind Hned).
  - pose proof (list_find_filter (λ x, id x = blockId) (λ x, name x = name b) _ _ _
                  Hfind eq_refl) as Hf.
    apply list_find_Some in Hf as (Hk & _). exact Hk.
  - rewrite Z.add_comm. apply identName_bijective26. lia.
Qed.

(** Twenty-eight blocks of type [group]: the 26th is [Z], the 27th [AA], the
    28th [AB]. *)
Lemma getBlockOrderById_not_editable_bijective26_witness :
  getBlockOrderById (mkRegistry groups) (mkState groups) "25"
    = Ok (Some (OrderString "Z"))
  ∧ getBlockOrderById (mkRegistry groups) (mkState groups) "26"
    = Ok (Some (OrderString "AA"))
  ∧ getBlockOrderById (mkRegistry groups) (mkState groups) "27"
    = Ok (Some (OrderString "AB")).
Proof.
  assert (Hall : AllRegistered (mkRegistry groups) (mkState groups))
    by (apply mkRegistry_AllRegistered; vm_compute; reflexivity).
  assert (Hlabel : ∀ (k : nat) (label : string),
            list_find (λ x, id x = pretty k) (items (blocks (mkState groups)))
              = Some (k, mkBlock (pretty k) "group") →
            same_named_before (mkState groups) (mkBlock (pretty k) "group") k = k →
            bijective26 (1 + Z.of_nat k) label →
            getBlockOrderById (mkRegistry groups) (mkState groups) (pretty k)
              = Ok (Some (OrderString label))).
  { intros k label Hfind Hsame Hlabel.
    destruct (getBlockOrderById_not_editable_bijective26 (mkRegistry groups)
                (mkState groups) (pretty k) (mkBlock (pretty k) "group")
                (mkType false) k eq_refl Hall Hfind eq_refl eq_refl)
      as (s & Hres & _ & Hs).
    rewrite Hsame in Hs. rewrite (bijective26_unique _ _ _ Hlabel Hs). exact Hres. }
  split_and!.
  - apply (Hlabel 25%nat); [vm_compute; reflexivity..|].
    apply bijective26_check; vm_compute; reflexivity.
  - apply (Hlabel 26%nat); [vm_compute; reflexivity..|].
    apply bijective26_check; vm_compute; reflexivity.
  - apply (Hlabel 27%nat); [vm_compute; reflexivity..|].
    apply bijective26_check; vm_compute; reflexivity.
Defined.




(** C10: the guarded registry lookup does not keep the selector from
    failing.  The unregistered block before the target is skipped by the
    guard, but the editable field beside it is given its order by
    [getBlockOrderById], whose [getEditableFields] reads [.supports] of
    the unregistered block's absent type. *)
Theorem getPrevious_unregistered_predecessor_fails :
  mkBlock "U" "ghost" ∈ take 2 field_ghost_target
  ∧ getBlockType (mkRegistry field_ghost_target) (name (mkBlock "U" "ghost")) = None
  ∧ list_find (λ x, id x = "D") field_ghost_target = Some (2%nat, mkBlock "D" "short-text")
  ∧ getPreviousEditableFieldsWithOrder (mkRegistry field_ghost_target)
      (mkState field_ghost_target) "D" = Throw TypeError.
Proof.
  split_and!; [|reflexivity..]. apply list_elem_of_In. vm_compute. tauto.
Qed.

(** With no editable field before the target the guard does its work: the
    unregistered block is skipped and nothing fails. *)
Lemma getPrevious_unregistered_predecessor_skipped :
  getPreviousEditableFieldsWithOrder (mkRegistry ghost_target) (mkState ghost_target) "D"
  = Ok [].
Proof.
  apply (getPrevious_nothing_editable (mkRegistry ghost_target) (mkState ghost_target)
           "D" (mkBlock "D" "short-text") 1); [reflexivity|].
  repeat constructor. intros Hed. vm_compute in Hed. discriminate.
Qed.

End BlockEditorClaims.

(** ** The memoised [getBlocks] *)

Module MemoClaims.
Import BlockEditor Memo Examples.

Section createSelector_facts.
Context {S A V D : Type} `{EqDecision A, EqDecision D}.
Context (selector : S → A → V) (getDependants : S → A → list D).

(** After a call the cache is keyed on the dependants of that call and
    holds the returned value in the first node for its arguments. *)
Lemma createSelector_stores (c : Cache) (source : S) (args : A) :
  let r := createSelector selector getDependants c source args in
  lastDependants r.2 = Some (getDependants source args)
  ∧ ∃ i node, list_find (λ node : A * V, node.1 = args) (nodes r.2) = Some (i, node)
              ∧ node.2 = r.1.
Proof.
  unfold createSelector.
  destruct (list_find _ _) as [[i node]|] eqn:Hfind; cbn.
  - split; [reflexivity|]. eauto.
  - split; [reflexivity|]. exists 0%nat, (args, selector source args).
    rewrite decide_True by reflexivity. done.
Qed.

(** A call whose dependants are those the cache is keyed on, and whose
    arguments have a node, returns the node's value without running the
    selector, and leaves the cache as it is. *)
Lemma createSelector_hit (c : Cache) (source : S) (args : A) i node :
  lastDependants c = Some (getDependants source args) →
  list_find (λ node : A * V, node.1 = args) (nodes c) = Some (i, node) →
  createSelector selector getDependants c source args = (node.2, c).
Proof.
  intros Hdeps Hfind. unfold createSelector.
  rewrite decide_True by exact Hdeps. rewrite Hfind, <- Hdeps.
  destruct c. reflexivity.
Qed.

(** A call on a cache with no entry runs the selector. *)
Lemma createSelector_cold (source : S) (args : A) :
  (createSelector selector getDependants empty_cache source args).1
  = selector source args.
Proof. reflexivity. Qed.

(** Two successive calls with the same arguments and dependants: the
    second returns what the first returned. *)
Lemma createSelector_twice (c : Cache) (source source' : S) (args : A) :
  getDependants source' args = getDependants source args →
  let r := createSelector selector getDependants c source args in
  createSelector selector getDependants r.2 source' args = (r.1, r.2).
Proof.
  intros Hdeps r.
  destruct (createSelector_stores c source args) as (Hlast & i & node & Hfind & Hval).
  fold r in Hlast, Hfind, Hval. rewrite <- Hval.
  apply (createSelector_hit _ _ _ i); [congruence|exact Hfind].
Qed.

End createSelector_facts.

(** C9.  Two successive calls of [getBlocks] between which no block's
    cache token changes (the in-order token lists of the two states are
    equal) return the identical reference: the second call returns the
    array object the first call returned, identity included, whatever
    array the second state holds, and leaves the cache untouched. *)
Theorem getBlocks_memo_same_reference (c : getBlocks_cache)
    (state state' : BlockEditorState) :
  getBlocks_dependants state' = getBlocks_dependants state →
  let first := Memo.getBlocks c state in
  let second := Memo.getBlocks first.2 state' in
  second.1 = first.1
  ∧ array_ref second.1 = array_ref first.1
  ∧ second.2 = first.2.
Proof.
  intros Hdeps first second. unfold second, first, Memo.getBlocks.
  rewrite (createSelector_twice _ _ c state state' () Hdeps). done.
Qed.

(** The two states hold different arrays under the same tokens: the call on
    the second one, after a call on the first, returns the first array. *)
Lemma getBlocks_memo_same_reference_witness :
  BlockEditor.getBlocks second_state ≠ BlockEditor.getBlocks first_state
  ∧ (Memo.getBlocks empty_cache first_state).1 = blocks first_state
  ∧ (Memo.getBlocks (Memo.getBlocks empty_cache first_state).2 first_state).1
    = blocks first_state
  ∧ (Memo.getBlocks (Memo.getBlocks empty_cache first_state).2 second_state).1
    = blocks first_state.
Proof.
  split_and!; [discriminate|reflexivity| |].
  - exact (proj1 (getBlocks_memo_same_reference empty_cache first_state first_state
                    eq_refl)).
  - exact (proj1 (getBlocks_memo_same_reference empty_cache first_state second_state
                    eq_refl)).
Defined.

End MemoClaims.

(** ** The properties of the element renderer *)

Module RichTextClaims.
Import RichText Examples.

Section Element_facts.
Context {Editor Attributes Children MergeTags Path : Type}.
Context (findPath : Editor → SlateElement → Path).
Implicit Types (props : @Props Editor Attributes Children MergeTags).

(** C7.  The element renderer dispatches on the type tag of the node:
    ["link"] renders an anchor whose [href] is the node's [url], around
    the node's children; ["mergeTag"] renders the merge-tag component
    with [null] for children; every other type renders a paragraph
    around the children. *)
Theorem Element_dispatch props :
  let rendered := (Element findPath props).2 in
  (type (element props) = "link" →
   rendered = jsx_a (attributes props) (url (element props)) (children props))
  ∧ (type (element props) = "mergeTag" →
     rendered = jsx_MergeTagComponent (element props) (mergeTags props) (editor props)
                  (findPath (editor props) (element props)) (attributes props) None)
  ∧ (type (element props) ≠ "link" → type (element props) ≠ "mergeTag" →
     rendered = jsx_p (attributes props) (children props)).
Proof.
  unfold Element, traced_bind, ReactEditor_findPath, traced_ret. cbn.
  split_and!.
  - intros Hlink. rewrite Hlink. reflexivity.
  - intros Htag. rewrite Htag. reflexivity.
  - intros Hlink Htag. rewrite decide_False by done.
    rewrite decide_False by done. reflexivity.
Qed.

(** C8, amended.  The renderer calls [findPath] exactly once, on the
    editor and the node, for every node whatever its type; for a node
    whose type is not ["mergeTag"] the path it gets back is not used: the
    render is the same for every position resolver. *)
Theorem Element_findPath_every_node props :
  (Element findPath props).1 = [FindPath (editor props) (element props)]
  ∧ (type (element props) ≠ "mergeTag" →
     ∀ findPath' : Editor → SlateElement → Path,
       (Element findPath' props).2 = (Element findPath props).2).
Proof.
  unfold Element, traced_bind, ReactEditor_findPath, traced_ret. cbn.
  split.
  - repeat (destruct (decide _)); reflexivity.
  - intros Htag findPath'.
    destruct (decide (type (element props) = "mergeTag")) as [|_]; [done|].
    destruct (decide (type (element props) = "link")); reflexivity.
Qed.

End Element_facts.

(** A link, a merge tag and a paragraph. *)
Lemma Element_dispatch_witness :
  (Element path_of (props_of link_node)).2
    = jsx_a "data-slate-node" (Some "https://x") "text"
  ∧ (Element path_of (props_of mergeTag_node)).2
    = jsx_MergeTagComponent mergeTag_node ["field"] "editor" [0%nat; 2%nat]
        "data-slate-node" None
  ∧ (Element path_of (props_of paragraph_node)).2 = jsx_p "data-slate-node" "text".
Proof.
  split_and!.
  - apply (proj1 (Element_dispatch path_of (props_of link_node))). reflexivity.
  - apply (proj1 (proj2 (Element_dispatch path_of (props_of mergeTag_node)))).
    reflexivity.
  - apply (proj2 (proj2 (Element_dispatch path_of (props_of paragraph_node))));
      discriminate.
Defined.

(** C8, as stated, fails: rendering a link node calls [findPath]. *)
Lemma Element_findPath_link_counterexample :
  type link_node ≠ "mergeTag"
  ∧ (Element path_of (props_of link_node)).1 = [FindPath "editor" link_node]
  ∧ (Element path_of (props_of link_node)).1 ≠ [].
Proof. split_and!; [discriminate|reflexivity|discriminate]. Qed.

(** A paragraph: one call, and a render that ignores the path. *)
Lemma Element_findPath_every_node_witness :
  (Element path_of (props_of paragraph_node)).1 = [FindPath "editor" paragraph_node]
  ∧ (Element (λ _ _, []) (props_of paragraph_node)).2
    = (Element path_of (props_of paragraph_node)).2.
Proof.
  split.
  - exact (proj1 (Element_findPath_every_node path_of (props_of paragraph_node))).
  - apply (proj2 (Element_findPath_every_node path_of (props_of paragraph_node))).
    discriminate.
Defined.

End RichTextClaims.

(** ** Further facts used below *)

Module CoverageFacts.
Import BlockEditor Notions JSFacts IdentNameFacts NumerationFacts SelectorFacts
  PreviousFieldsFacts.

Implicit Types (reg : Registry) (state : BlockEditorState) (b : FormBlock)
  (blockId : string).

(** A single letter is the numeral of its digit. *)
Lemma bijective26_letter (d : Z) :
  0 <= d <= 25 →
  bijective26 (d + 1) (String (ascii_of_N (Z.to_N (65 + d))) EmptyString).
Proof.
  intros Hd. split.
  - cbn. split; [|exact I]. unfold is_letter, letter_digit.
    rewrite ascii_code_small by lia. lia.
  - unfold bijective26_value. cbn. unfold letter_digit.
    rewrite ascii_code_small by lia. lia.
Qed.

Lemma identName_letter (d : Z) :
  0 <= d <= 25 → identName d = String (ascii_of_N (Z.to_N (65 + d))) EmptyString.
Proof.
  intros Hd. eapply bijective26_unique; [apply identName_bijective26; lia|].
  apply bijective26_letter, Hd.
Qed.

(** The number of elements with a property among the first [i] grows
    strictly past an element that has it. *)
Lemma count_before_lt {X : Type} (P : X → Prop) `{∀ x, Decision (P x)}
    (l : list X) (i j : nat) (x : X) :
  (i < j)%nat → l !! i = Some x → P x →
  (length (filter P (take i l)) < length (filter P (take j l)))%nat.
Proof.
  intros Hij Hi HP.
  assert (Hsplit : take j l = take i l ++ x :: take (j - S i) (drop (S i) l)).
  { replace j with (S i + (j - S i))%nat at 1 by lia.
    rewrite <- take_take_drop. rewrite (take_S_r l i x Hi), <- app_assoc.
    reflexivity. }
  rewrite Hsplit, filter_app, filter_cons_True by done.
  rewrite length_app. cbn. lia.
Qed.




Lemma orders_differ_lt reg state (i1 i2 : nat) b1 b2 :
  blockEditorState reg = state → AllRegistered reg state → UniqueIds state →
  items (blocks state) !! i1 = Some b1 → items (blocks state) !! i2 = Some b2 →
  (i1 < i2)%nat →
  getBlockOrderById reg state (id b1) = getBlockOrderById reg state (id b2) →
  ¬ EditableField reg b1 ∧ ¬ EditableField reg b2 ∧ name b1 ≠ name b2.
Proof.
  intros Hst Hall Huniq H1 H2 Hlt Heq.
  pose proof (list_find_unique_id _ _ _ Huniq H1) as Hf1.
  pose proof (list_find_unique_id _ _ _ Huniq H2) as Hf2.
  destruct (decide (EditableField reg b1)) as [He1|Hn1];
    destruct (decide (EditableField reg b2)) as [He2|Hn2].
  - rewrite (getBlockOrderById_editable_index _ _ _ _ _ Hst Hall Hf1 He1),
            (getBlockOrderById_editable_index _ _ _ _ _ Hst Hall Hf2 He2) in Heq.
    pose proof (count_before_lt (EditableField reg) _ _ _ _ Hlt H1 He1).
    injection Heq as Heq. lia.
  - rewrite (getBlockOrderById_editable_index _ _ _ _ _ Hst Hall Hf1 He1),
            (getBlockOrderById_letters_index _ _ _ _ _ Hst Hall Hf2 Hn2) in Heq.
    discriminate.
  - rewrite (getBlockOrderById_letters_index _ _ _ _ _ Hst Hall Hf1 Hn1),
            (getBlockOrderById_editable_index _ _ _ _ _ Hst Hall Hf2 He2) in Heq.
    discriminate.
  - split_and!; [done..|]. intros Hname.
    rewrite (getBlockOrderById_letters_index _ _ _ _ _ Hst Hall Hf1 Hn1),
            (getBlockOrderById_letters_index _ _ _ _ _ Hst Hall Hf2 Hn2) in Heq.
    injection Heq as Heq.
    destruct (identName_bijective26 (Z.of_nat (same_named_before state b1 i1)) ltac:(lia))
      as [_ Hv1].
    destruct (identName_bijective26 (Z.of_nat (same_named_before state b2 i2)) ltac:(lia))
      as [_ Hv2].
    rewrite Heq in Hv1.
    assert (Hsame : same_named_before state b1 i1 = same_named_before state b2 i2) by lia.
    unfold same_named_before in Hsame. rewrite <- Hname in Hsame.
    pose proof (count_before_lt (λ x, name x = name b1) _ _ _ _ Hlt H1 eq_refl).
    lia.
Qed.


Lemma current_find_None state :
  currentBlockId state = None →
  list_find (λ item, Some (id item) = currentBlockId state) (items (blocks state)) = None.
Proof.
  intros Hnone. apply list_find_None, Forall_forall. intros x _. rewrite Hnone. done.
Qed.

Lemma current_find_Some state cid :
  currentBlockId state = Some cid →
  list_find (λ item, Some (id item) = currentBlockId state) (items (blocks state))
  = list_find (λ item, id item = cid) (items (blocks state)).
Proof.
  intros Hcid. apply list_find_ext. intros x. rewrite Hcid.
  split; [intros [= ->]; reflexivity|intros ->; reflexivity].
Qed.

(** What the function of [getBlockById] (lines 62-66) computes. *)
Lemma getBlockById_computed state blockId :
  (∀ b, getBlockById state blockId = Some b →
        b ∈ items (blocks state) ∧ id b = blockId)
  ∧ (getBlockById state blockId = None
     ↔ Forall (λ b, id b ≠ blockId) (items (blocks state)))
  ∧ (UniqueIds state →
     ∀ b, b ∈ items (blocks state) → getBlockById state (id b) = Some b).
Proof.
  split_and!.
  - intros b Hb. apply getBlockById_list_find in Hb as [i Hi].
    apply list_find_Some in Hi as (Hi & Hid & _).
    split; [eapply list_elem_of_lookup_2, Hi|exact Hid].
  - split; [|apply getBlockById_absent].
    intros Hnone. unfold getBlockById in Hnone.
    apply (find_None (λ x, id x = blockId)).
    destruct (find _ _); [discriminate|reflexivity].
  - intros Huniq b Hb. apply list_elem_of_lookup_1 in Hb as [j Hj].
    apply getBlockById_list_find. exists j.
    apply list_find_unique_id; done.
Qed.

(** The range of what the function of [getBlockOrderById] computes when
    it reads the block through the function of [getBlockById]. *)
Lemma getBlockOrderById_computed_range reg state blockId o :
  blockEditorState reg = state →
  getBlockOrderById reg state blockId = Ok (Some o) →
  match o with
  | OrderNumber n =>
      ∃ len, getEditableFieldsLength reg state = Ok len ∧ 1 <= n <= len
  | OrderString s => letters s ∧ s ≠ EmptyString
  end.
Proof.
  intros Hst Hres. pose proof Hres as Hraw. unfold getBlockOrderById in Hraw.
  destruct (getBlockById state blockId) as [b|] eqn:Hb; [|discriminate].
  rewrite Hst in Hraw.
  destruct (getEditableFields reg state) as [fields|e] eqn:Hfields; [|discriminate].
  apply getEditableFields_inv in Hfields as [Hall ->].
  apply getBlockById_list_find in Hb as [i Hfind].
  destruct (decide (EditableField reg b)) as [Hed|Hned].
  - rewrite (getBlockOrderById_editable_index _ _ _ _ _ Hst Hall Hfind Hed) in Hres.
    injection Hres as <-.
    unfold getEditableFieldsLength. rewrite getEditableFields_registered by done.
    eexists. split; [reflexivity|].
    pose proof (list_find_filter (λ x, id x = blockId) (EditableField reg) _ _ _ Hfind Hed)
      as Hf.
    apply list_find_Some in Hf as (Hk & _). apply lookup_lt_Some in Hk. lia.
  - rewrite (getBlockOrderById_letters_index _ _ _ _ _ Hst Hall Hfind Hned) in Hres.
    injection Hres as <-.
    destruct (identName_bijective26 (Z.of_nat (same_named_before state b i)) ltac:(lia))
      as [Hl Hv].
    split; [exact Hl|]. intros Hempty. rewrite Hempty in Hv.
    unfold bijective26_value in Hv. cbn in Hv. lia.
Qed.

(** [getCurrentBlock] scans for what the function of [getBlockById]
    computes at the current block id. *)
Lemma getCurrentBlock_computed state :
  getCurrentBlock state
  = match getCurrentBlockId state with
    | Some cid => getBlockById state cid
    | None => None
    end.
Proof.
  unfold getCurrentBlock, getCurrentBlockId, getBlockById, findIndex, find.
  destruct (currentBlockId state) as [cid|] eqn:Hcid.
  - rewrite <- Hcid, (current_find_Some _ _ Hcid).
    destruct (list_find _ _) as [[i x]|] eqn:Hfind; cbn.
    + rewrite decide_True by lia. rewrite Nat2Z.id.
      apply list_find_Some in Hfind as (Hi & _). exact Hi.
    + rewrite decide_False by lia. reflexivity.
  - rewrite <- Hcid, (current_find_None _ Hcid). cbn.
    rewrite decide_False by lia. reflexivity.
Qed.

End CoverageFacts.

(** ** Further properties of the selectors and of the renderer *)

Module Coverage.
Import BlockEditor Notions Examples JSFacts IdentNameFacts NumerationFacts
  SelectorFacts PreviousFieldsFacts CoverageNotions CoverageFacts MoreExamples
  ExportedNotions ExportedFacts.

Implicit Types (reg : Registry) (state : BlockEditorState) (b : FormBlock)
  (blockId : string) (cs : Exported.Caches).

(** X1.  [identName] gives different labels to different indices. *)
Theorem identName_injective (k k' : Z) :
  0 <= k → 0 <= k' → identName k = identName k' → k = k'.
Proof.
  intros Hk Hk' Heq.
  destruct (identName_bijective26 k Hk) as [_ Hv].
  destruct (identName_bijective26 k' Hk') as [_ Hv'].
  rewrite Heq in Hv. lia.
Qed.

Lemma identName_injective_witness :
  identName 26 = identName 26 ∧ identName 1 ≠ identName 27.
Proof.
  split; [reflexivity|]. intros Heq.
  pose proof (identName_injective 1 27 ltac:(lia) ltac:(lia) Heq). lia.
Defined.

(** X2.  The labels follow the rule of spreadsheet columns: an index up
    to 25 is one letter, and a larger index [k] is the label of
    [k / 26 - 1] followed by the letter of [k mod 26]. *)
Theorem identName_step (k : Z) :
  0 <= k →
  identName k
  = if decide (k <= 25)
    then String (ascii_of_N (Z.to_N (65 + k))) EmptyString
    else identName (k / 26 - 1) +:+ identName (k mod 26).
Proof.
  intros Hk. destruct (decide (k <= 25)) as [Hle|Hgt].
  - apply identName_letter. lia.
  - assert (Hq : 1 <= k / 26) by (apply Z.div_le_lower_bound; lia).
    pose proof (Z.mod_pos_bound k 26 ltac:(lia)) as Hr.
    eapply bijective26_unique; [apply identName_bijective26; lia|].
    destruct (identName_bijective26 (k / 26 - 1) ltac:(lia)) as [Hl Hv].
    rewrite (identName_letter (k mod 26)) by lia.
    destruct (bijective26_letter (k mod 26) ltac:(lia)) as [Hl' _].
    split; [apply letters_app; done|].
    unfold bijective26_value in *. rewrite bijective26_acc_app, Hv. cbn.
    unfold letter_digit. rewrite ascii_code_small by lia.
    pose proof (Z.div_mod k 26 ltac:(lia)). lia.
Qed.

Lemma identName_step_witness :
  identName 27 = identName 0 +:+ identName 1 ∧ identName 27 = "AB".
Proof.
  split; [|reflexivity]. exact (identName_step 27 ltac:(lia)).
Defined.

(** X5.  With pairwise distinct ids the editable fields are numbered in
    the order of [getEditableFields]: the field at index [j] has order
    [j + 1]. *)
Theorem editable_fields_numbered reg state fields :
  blockEditorState reg = state → UniqueIds state →
  getEditableFields reg state = Ok fields →
  ∀ (j : nat) x, fields !! j = Some x →
    getBlockOrderById reg state (id x) = Ok (Some (OrderNumber (Z.of_nat j + 1))).
Proof.
  intros Hst Huniq Hfields j x Hj.
  apply getEditableFields_inv in Hfields as [Hall ->].
  apply (previous_field_order reg state (length (items (blocks state))) j x Hst Hall Huniq).
  rewrite take_ge by lia. exact Hj.
Qed.

Lemma editable_fields_numbered_witness :
  getBlockOrderById (mkRegistry abcd) (mkState abcd) "D" = Ok (Some (OrderNumber 3)).
Proof.
  apply (editable_fields_numbered (mkRegistry abcd) (mkState abcd)
           [mkBlock "A" "short-text"; mkBlock "C" "short-text"; mkBlock "D" "short-text"]
           eq_refl ltac:(apply (bool_decide_unpack _); vm_compute; exact I) eq_refl
           2%nat (mkBlock "D" "short-text") eq_refl).
Defined.

(** X6.  On a state whose names are all registered and whose ids are
    pairwise distinct, two different blocks get the same order only when
    both are non-editable and of different block types: editable fields
    have pairwise different numbers, blocks of one non-editable type have
    pairwise different labels, and a number is never a label. *)
Theorem orders_distinguish_blocks reg state (i1 i2 : nat) b1 b2 :
  blockEditorState reg = state → AllRegistered reg state → UniqueIds state →
  items (blocks state) !! i1 = Some b1 → items (blocks state) !! i2 = Some b2 →
  i1 ≠ i2 →
  getBlockOrderById reg state (id b1) = getBlockOrderById reg state (id b2) →
  ¬ EditableField reg b1 ∧ ¬ EditableField reg b2 ∧ name b1 ≠ name b2.
Proof.
  intros Hst Hall Huniq H1 H2 Hne Heq.
  destruct (decide (i1 < i2)%nat) as [Hlt|Hge].
  - exact (orders_differ_lt _ _ _ _ _ _ Hst Hall Huniq H1 H2 Hlt Heq).
  - destruct (orders_differ_lt _ _ _ _ _ _ Hst Hall Huniq H2 H1 ltac:(lia)
                (eq_sym Heq)) as (Hn2 & Hn1 & Hname).
    split_and!; [done..|]. congruence.
Qed.

Lemma orders_distinguish_blocks_witness :
  getBlockOrderById (mkRegistry groups) (mkState groups) "0"
  ≠ getBlockOrderById (mkRegistry groups) (mkState groups) "27".
Proof.
  intros Heq.
  destruct (orders_distinguish_blocks (mkRegistry groups) (mkState groups) 0 27
              (mkBlock "0" "group") (mkBlock "27" "group") eq_refl
              ltac:(apply Forall_forall; intros x Hx;
                    apply list_elem_of_fmap in Hx as (k & -> & _); by eexists)
              ltac:(apply (bool_decide_unpack _); vm_compute; exact I)
              eq_refl eq_refl ltac:(lia) Heq) as (_ & _ & Hname).
  apply Hname. reflexivity.
Defined.







(** X11.  [getCurrentBlockIndex] is [-1] or an index of the sequence; it
    is [-1] exactly when [getCurrentBlock] is [undefined], and otherwise
    the block at that index is the current block, the first one that
    carries the current id. *)
Theorem getCurrentBlockIndex_getCurrentBlock state :
  -1 <= getCurrentBlockIndex state < Z.of_nat (length (items (blocks state)))
  ∧ (getCurrentBlockIndex state = -1 ↔ getCurrentBlock state = None)
  ∧ (getCurrentBlockIndex state ≠ -1 →
     ∃ b, getCurrentBlock state = Some b
          ∧ items (blocks state) !! Z.to_nat (getCurrentBlockIndex state) = Some b
          ∧ getCurrentBlockId state = Some (id b)
          ∧ ∀ (j : nat) y, items (blocks state) !! j = Some y →
              Z.of_nat j < getCurrentBlockIndex state → id y ≠ id b).
Proof.
  unfold getCurrentBlock, getCurrentBlockIndex, getCurrentBlockId, findIndex.
  destruct (list_find _ _) as [[i x]|] eqn:Hfind.
  - apply list_find_Some in Hfind as (Hi & Hid & Hfirst).
    pose proof (lookup_lt_Some _ _ _ Hi) as Hlt.
    rewrite decide_True by lia. rewrite Nat2Z.id.
    split_and!; [lia|lia| |].
    + split; [lia|]. rewrite Hi. discriminate.
    + intros _. exists x. split_and!; [done..| |]; [done|].
      intros j y Hj Hjlt Hy. apply (Hfirst j y Hj ltac:(lia)).
      rewrite <- Hid. congruence.
  - rewrite decide_False by lia. split_and!; [lia|lia|done|done].
Qed.

Lemma getCurrentBlockIndex_getCurrentBlock_witness :
  getCurrentBlockIndex (mkStateAt (Some "B") welcome_form) = 2
  ∧ getCurrentBlock (mkStateAt (Some "B") welcome_form) = Some (mkBlock "B" "group")
  ∧ getCurrentBlockIndex (mkStateAt (Some "Z") welcome_form) = -1
  ∧ getCurrentBlock (mkStateAt (Some "Z") welcome_form) = None.
Proof.
  destruct (getCurrentBlockIndex_getCurrentBlock (mkStateAt (Some "Z") welcome_form))
    as (_ & Hnone & _).
  split_and!; [reflexivity..|]. apply Hnone. reflexivity.
Defined.

(** X12.  [getWelcomeScreensLength] lies between 0 and the number of
    blocks; it is 0 exactly when no block is named [welcome-screen], and
    it is at least 1 as soon as one is. *)
Theorem getWelcomeScreensLength_bounds state :
  0 <= getWelcomeScreensLength state <= Z.of_nat (length (items (blocks state)))
  ∧ (getWelcomeScreensLength state = 0
     ↔ Forall (λ b, name b ≠ "welcome-screen") (items (blocks state)))
  ∧ (∀ b, b ∈ items (blocks state) → name b = "welcome-screen" →
          1 <= getWelcomeScreensLength state).
Proof.
  unfold getWelcomeScreensLength.
  set (l := items (blocks state)).
  assert (Hzero : length (filter (λ b, name b = "welcome-screen") l) = 0%nat
                  ↔ Forall (λ b, name b ≠ "welcome-screen") l).
  { rewrite length_zero_iff_nil. split.
    - intros Hnil. apply Forall_forall. intros b Hb Hname.
      assert (Hin : b ∈ filter (λ b, name b = "welcome-screen") l)
        by (apply list_elem_of_filter; done).
      rewrite Hnil in Hin. inversion Hin.
    - intros Hall. induction Hall as [|b l' Hb _ IH]; [reflexivity|].
      rewrite filter_cons_False by done. exact IH. }
  split; [|split].
  - pose proof (length_filter (λ b, name b = "welcome-screen") l). lia.
  - split; [intros Hz; apply Hzero; lia|intros Hall; apply Hzero in Hall; lia].
  - intros b Hb Hname.
    assert (Hpos : length (filter (λ b, name b = "welcome-screen") l) ≠ 0%nat); [|lia].
    intros Hlen. apply Hzero in Hlen. rewrite Forall_forall in Hlen.
    exact (Hlen b Hb Hname).
Qed.

Lemma getWelcomeScreensLength_bounds_witness :
  getWelcomeScreensLength (mkState welcome_form) = 1
  ∧ getWelcomeScreensLength (mkState abcd) = 0.
Proof.
  split; [reflexivity|].
  apply (proj1 (proj2 (getWelcomeScreensLength_bounds (mkState abcd)))).
  repeat constructor; vm_compute; discriminate.
Defined.

(** X13.  [getEditableFieldsLength] fails exactly when some block of the
    state has an unregistered name; otherwise it is the number of blocks
    that are editable fields, at most the number of blocks. *)
Theorem getEditableFieldsLength_spec reg state :
  (getEditableFieldsLength reg state = Throw TypeError
   ↔ Exists (λ b, ¬ Registered reg b) (items (blocks state)))
  ∧ (∀ n, getEditableFieldsLength reg state = Ok n →
       AllRegistered reg state
       ∧ n = Z.of_nat (length (filter (EditableField reg) (items (blocks state))))
       ∧ 0 <= n <= Z.of_nat (length (items (blocks state)))).
Proof.
  unfold getEditableFieldsLength. split.
  - split.
    + intros Hthrow.
      destruct (decide (Forall (Registered reg) (items (blocks state)))) as [Hall|Hnot].
      * rewrite getEditableFields_registered in Hthrow by exact Hall. discriminate.
      * apply not_Forall_Exists in Hnot; [exact Hnot|apply _].
    + intros Hex. apply Exists_exists in Hex as (u & Hu & Hun).
      rewrite (getEditableFields_unregistered _ _ _ Hu Hun). reflexivity.
  - intros n Hn.
    destruct (getEditableFields reg state) as [fields|e] eqn:Hfields; [|discriminate].
    apply getEditableFields_inv in Hfields as [Hall ->].
    cbn in Hn. injection Hn as <-. split_and!; [done..| |]; [lia|].
    pose proof (length_filter (EditableField reg) (items (blocks state))). lia.
Qed.

Lemma getEditableFieldsLength_spec_witness :
  getEditableFieldsLength (mkRegistry abcd) (mkState abcd) = Ok 3
  ∧ getEditableFieldsLength (mkRegistry group_ghost) (mkState group_ghost)
    = Throw TypeError.
Proof.
  split; [reflexivity|].
  apply (proj1 (getEditableFieldsLength_spec (mkRegistry group_ghost)
                  (mkState group_ghost))).
  apply Exists_exists. exists (mkBlock "U" "ghost"). split.
  - apply list_elem_of_In. vm_compute. tauto.
  - intros [bt Hbt]. vm_compute in Hbt. discriminate.
Defined.

Section Element_coverage.
Import RichText.
Context {Editor Attributes Children MergeTags Path : Type}.
Context (findPath : Editor → SlateElement → Path).
Implicit Types (props : @Props Editor Attributes Children MergeTags).

(** X14.  The tag of the render tells the type of the node: the
    merge-tag component for ["mergeTag"] only, an anchor for ["link"]
    only, a paragraph for every other type; the node's attributes are
    handed on in every case, and its children in every case but that of
    a merge tag. *)
Theorem Element_tag_attributes_children props :
  let r := (Element findPath props).2 in
  (rendered_tag r = TagMergeTagComponent ↔ type (element props) = "mergeTag")
  ∧ (rendered_tag r = TagA ↔ type (element props) = "link")
  ∧ (rendered_tag r = TagP
     ↔ type (element props) ≠ "mergeTag" ∧ type (element props) ≠ "link")
  ∧ rendered_attributes r = attributes props
  ∧ rendered_children r
    = if decide (type (element props) = "mergeTag") then None
      else Some (children props).
Proof.
  unfold Element, traced_bind, ReactEditor_findPath, traced_ret. cbn.
  destruct (decide (type (element props) = "mergeTag")) as [Htag|Htag]; cbn.
  - split_and!; [done| |split|done|done].
    + split; [discriminate|]. intros Hlink. rewrite Hlink in Htag. discriminate.
    + discriminate.
    + intros [??]. done.
  - destruct (decide (type (element props) = "link")) as [Hlink|Hlink]; cbn.
    + split_and!; [split|done|split|done|done]; try discriminate; try done.
      intros [??]. done.
    + split_and!; [split|split|done|done|done]; try discriminate; done.
Qed.

End Element_coverage.

Lemma Element_tag_attributes_children_witness :
  rendered_tag (RichText.Element path_of (props_of mergeTag_node)).2 = TagMergeTagComponent
  ∧ rendered_children (RichText.Element path_of (props_of mergeTag_node)).2 = None
  ∧ rendered_children (RichText.Element path_of (props_of link_node)).2 = Some "text".
Proof.
  destruct (Element_tag_attributes_children path_of (props_of mergeTag_node))
    as (Htag & _ & _ & _ & Hchildren).
  destruct (Element_tag_attributes_children path_of (props_of link_node))
    as (_ & _ & _ & _ & Hchildren').
  split_and!; [apply Htag; reflexivity|exact Hchildren|exact Hchildren'].
Defined.

(** X3.  When its cache answers only what the function computes on the
    state (as a cold cache does), the memoised [getBlockById] returns a
    block of the sequence that carries the id; it returns [undefined]
    exactly when no block carries it; and when the ids are pairwise
    distinct every block of the sequence is found again by its id. *)
Theorem getBlockById_sound_complete state cs :
  ByIdCoherent state cs →
  (∀ blockId b, (Exported.getBlockById state blockId cs).1 = Ok (Some b) →
                b ∈ items (blocks state) ∧ id b = blockId)
  ∧ (∀ blockId, (Exported.getBlockById state blockId cs).1 = Ok None
                ↔ Forall (λ b, id b ≠ blockId) (items (blocks state)))
  ∧ (UniqueIds state →
     ∀ b, b ∈ items (blocks state) →
          (Exported.getBlockById state (id b) cs).1 = Ok (Some b)).
Proof.
  intros Hco.
  assert (Hval : ∀ blockId, (Exported.getBlockById state blockId cs).1
                            = Ok (getBlockById state blockId))
    by (intros blockId; apply getBlockById_coherent, Hco).
  split_and!.
  - intros blockId b Hb. rewrite Hval in Hb. injection Hb as Hb.
    exact (proj1 (getBlockById_computed state blockId) b Hb).
  - intros blockId. rewrite Hval.
    rewrite <- (proj1 (proj2 (getBlockById_computed state blockId))).
    split; [intros [= ->]; reflexivity|intros ->; reflexivity].
  - intros Huniq b Hb. rewrite Hval.
    rewrite (proj2 (proj2 (getBlockById_computed state (id b))) Huniq b Hb).
    reflexivity.
Qed.

Lemma getBlockById_sound_complete_witness :
  (Exported.getBlockById (mkState abcd) "C" Exported.cold_caches).1
    = Ok (Some (mkBlock "C" "short-text"))
  ∧ (Exported.getBlockById (mkState abcd) "E" Exported.cold_caches).1 = Ok None.
Proof.
  destruct (getBlockById_sound_complete (mkState abcd) Exported.cold_caches
              (ByIdCoherent_cold _)) as (_ & Hnone & Hfound).
  split.
  - apply (Hfound ltac:(apply (bool_decide_unpack _); vm_compute; exact I)
             (mkBlock "C" "short-text")).
    apply list_elem_of_In. vm_compute. tauto.
  - apply Hnone. repeat constructor; vm_compute; discriminate.
Defined.

(** X4.  Read on the store's own state, with caches that answer only
    what the functions compute on it, [getBlockOrderById] never returns
    the number 0 or an empty label: a numeric order lies between 1 and
    [getEditableFieldsLength], and an alphabetic order is a non-empty
    string of the letters A to Z. *)
Theorem getBlockOrderById_range reg state blockId cs o :
  blockEditorState reg = state →
  CoherentAt reg state blockId cs →
  (Exported.getBlockOrderById reg state blockId cs).1 = Ok (Some o) →
  match o with
  | OrderNumber n =>
      ∃ len, (Exported.getEditableFieldsLength reg state cs).1 = Ok len
             ∧ 1 <= n <= len
  | OrderString s => letters s ∧ s ≠ EmptyString
  end.
Proof.
  intros Hst (Hblocks & Hid & _) Hres.
  rewrite getBlockOrderById_coherent in Hres by (rewrite ?Hst; assumption).
  pose proof (getBlockOrderById_computed_range reg state blockId o Hst Hres) as Hrange.
  destruct o as [n|s]; [|exact Hrange].
  destruct Hrange as (len & Hlen & Hn). exists len. split; [|exact Hn].
  pose proof (getEditableFields_coherent reg state cs Hblocks) as Hfields.
  unfold getEditableFieldsLength in Hlen.
  unfold Exported.getEditableFieldsLength, Exported.call_bind, Exported.call_ret.
  destruct (Exported.getEditableFields reg state cs) as [[fields|e] cs'];
    cbn in Hfields; rewrite <- Hfields in Hlen; [exact Hlen|discriminate Hlen].
Qed.

Lemma getBlockOrderById_range_witness :
  ∃ len, (Exported.getEditableFieldsLength (mkRegistry abcd) (mkState abcd)
            Exported.cold_caches).1 = Ok len
         ∧ 1 <= 2 <= len.
Proof.
  exact (getBlockOrderById_range (mkRegistry abcd) (mkState abcd) "C"
           Exported.cold_caches (OrderNumber 2) eq_refl (CoherentAt_cold _ _ _) eq_refl).
Defined.

(** X10.  When the cache of [getBlockById] answers only what the
    function computes on the state, [getCurrentBlock] is what the
    memoised [getBlockById] returns at the current block id, and it is
    [undefined] when the state has no current block id. *)
Theorem getCurrentBlock_getBlockById state cs :
  ByIdCoherent state cs →
  match getCurrentBlockId state with
  | Some cid => (Exported.getBlockById state cid cs).1 = Ok (getCurrentBlock state)
  | None => getCurrentBlock state = None
  end.
Proof.
  intros Hco. rewrite (getCurrentBlock_computed state).
  destruct (getCurrentBlockId state) as [cid|]; [|reflexivity].
  apply getBlockById_coherent, Hco.
Qed.

Lemma getCurrentBlock_getBlockById_witness :
  (Exported.getBlockById (mkStateAt (Some "B") welcome_form) "B" Exported.cold_caches).1
  = Ok (getCurrentBlock (mkStateAt (Some "B") welcome_form)).
Proof.
  exact (getCurrentBlock_getBlockById (mkStateAt (Some "B") welcome_form)
           Exported.cold_caches (ByIdCoherent_cold _)).
Defined.

(** X16.  When the cache of [getBlockById] answers for the id only what
    the function computes on the state, the memoised [getBlockOrderById]
    returns [undefined] exactly when no block of the sequence carries
    the id, whatever the registry and the other caches. *)
Theorem getBlockOrderById_undefined_iff reg state blockId cs :
  (∀ v, cache_answers (Exported.getBlockById_c cs)
          (getBlockById_dependants state blockId) blockId = Some v →
        v = getBlockById state blockId) →
  (Exported.getBlockOrderById reg state blockId cs).1 = Ok None
  ↔ Forall (λ b, id b ≠ blockId) (items (blocks state)).
Proof.
  intros Hid.
  pose proof (getBlockOrderById_by_formBlock reg state blockId cs) as Hcase.
  rewrite (getBlockById_coherent _ _ _ Hid) in Hcase.
  split.
  - intros Hres. destruct (getBlockById state blockId) as [b|] eqn:Hb;
      [destruct (Hcase Hres)|].
    unfold getBlockById in Hb. apply (find_None (λ x, id x = blockId)).
    destruct (find _ _); [discriminate|reflexivity].
  - intros Habs. rewrite (getBlockById_absent _ _ Habs) in Hcase. exact Hcase.
Qed.

Lemma getBlockOrderById_undefined_iff_witness :
  (Exported.getBlockOrderById (mkRegistry abcd) (mkState abcd) "E"
     Exported.cold_caches).1 = Ok None.
Proof.
  apply (getBlockOrderById_undefined_iff (mkRegistry abcd) (mkState abcd) "E"
           Exported.cold_caches).
  - intros v Hv. discriminate Hv.
  - repeat constructor; vm_compute; discriminate.
Defined.

End Coverage.
